(** * Face clustering and processing queue of the face-recognition app

    A shallow embedding of [models.py], of [face_processor.process_single_photo]
    and of [app.start_processing], followed by the properties of the matcher,
    of the photo processor and of the queue life cycle.

    Conventions of the embedding.
    - A table is the list of its rows in insertion order.  The queries of
      the processor, [Person.query.all()] and [filter_by(photo_id).first()],
      are read in that order: it is what "first" means in the statements
      about them.  The order of the rows of the query of [start_processing],
      which has no ORDER BY either, is left to the database ([scan]).
    - The database takes whatever is flushed to it, except in the last part
      of the embedding ([process_single_photo_db]), where it may refuse.
    - A NumPy float is idealised as a rational number ([Q]); the Euclidean
      norm of the difference of two encodings is supplied by the environment,
      like every other external collaborator (S3, the detector, PIL, uuid4).
    - The JSON text stored in [face_encoding] columns is identified with the
      vector it serialises ([json.loads (json.dumps v) = v] on float lists).
    - A raised exception is represented by its text [str(e)]; mutations made
      before the exception stay in the session, as in Python. *)

From Stdlib Require Import List String Ascii Bool Arith ZArith QArith Qminmax Qabs Lia.
From Stdlib Require Import Permutation.
From Stdlib Require Import DecimalString.
Import ListNotations.

Local Open Scope string_scope.

(** ** models.py *)

Definition encoding : Type := list Q.

(** (top, right, bottom, left), as returned by [face_locations]. *)
Definition box : Type := (Z * Z * Z * Z)%type.

Module Photo.
Record t : Type := mk {
  id : string;
  s3_key : string;
  processed : bool;
  face_count : Z
}.
Definition set_processed (b : bool) (p : t) : t :=
  mk (id p) (s3_key p) b (face_count p).
Definition set_face_count (n : Z) (p : t) : t :=
  mk (id p) (s3_key p) (processed p) n.
End Photo.

Module Person.
Record t : Type := mk {
  id : string;
  name : string;
  face_encoding : encoding;
  thumbnail_s3_key : option string;
  photo_count : Z
}.
Definition set_photo_count (n : Z) (p : t) : t :=
  mk (id p) (name p) (face_encoding p) (thumbnail_s3_key p) n.
End Person.

Module FaceMatch.
Record t : Type := mk {
  id : string;
  photo_id : string;
  person_id : string;
  bounding_box : box;
  confidence : Q;
  face_encoding : encoding
}.
End FaceMatch.

(** The values of the [status] column. *)
Inductive Status : Type := pending | processing | completed | failed.

Definition Status_eqb (a b : Status) : bool :=
  match a, b with
  | pending, pending | processing, processing
  | completed, completed | failed, failed => true
  | _, _ => false
  end.

Module ProcessingQueue.
Record t : Type := mk {
  id : Z;
  photo_id : string;
  status : Status;
  error_message : option string
}.
Definition set_status (s : Status) (q : t) : t :=
  mk (id q) (photo_id q) s (error_message q).
Definition set_error_message (e : option string) (q : t) : t :=
  mk (id q) (photo_id q) (status q) e.
End ProcessingQueue.

(** The four tables. *)
Record DB : Type := mkDB {
  photos : list Photo.t;
  persons : list Person.t;
  face_matches : list FaceMatch.t;
  processing_queue : list ProcessingQueue.t
}.

(** ** Exceptions, external replies and the session *)

Inductive outcome (A : Type) : Type :=
| Ok (a : A)
| Raise (e : string).
Arguments Ok {A} a.
Arguments Raise {A} e.

(** What a boto3 call does: succeed, raise [ClientError], or raise
    something else (whose text is [msg]). *)
Inductive s3_reply (A : Type) : Type :=
| S3Ok (a : A)
| S3ClientError
| S3OtherError (msg : string).
Arguments S3Ok {A} a.
Arguments S3ClientError {A}.
Arguments S3OtherError {A} msg.

(** [session] is what queries of the running transaction see (SQLAlchemy
    autoflushes pending rows before a query); [committed] is what is durable;
    [uuid_calls] counts the calls of [uuid.uuid4] made so far. *)
Record Session : Type := mkSession {
  committed : DB;
  session : DB;
  uuid_calls : nat
}.

Definition M (A : Type) : Type := Session -> outcome A * Session.

Definition ret {A} (a : A) : M A := fun st => (Ok a, st).
Definition raise {A} (e : string) : M A := fun st => (Raise e, st).
Definition bind {A B} (m : M A) (k : A -> M B) : M B :=
  fun st =>
    match m st with
    | (Ok a, st') => k a st'
    | (Raise e, st') => (Raise e, st')
    end.
Definition lift {A} (o : outcome A) : M A := fun st => (o, st).

Notation "x <- m ;; k" := (bind m (fun x => k))
  (at level 61, m at next level, right associativity).
Notation "m ;;; k" := (bind m (fun _ => k))
  (at level 61, right associativity).

Definition modify_session (f : DB -> DB) : M unit :=
  fun st => (Ok tt, mkSession (committed st) (f (session st)) (uuid_calls st)).

(** [db.session.commit()] *)
Definition commit : M unit :=
  fun st => (Ok tt, mkSession (session st) (session st) (uuid_calls st)).

(** Applies [f] to the first element satisfying [p]: an attribute
    assignment on the ORM object that a lookup returned. *)
Fixpoint update_first {A} (p : A -> bool) (f : A -> A) (l : list A) : list A :=
  match l with
  | [] => []
  | x :: l' => if p x then f x :: l' else x :: update_first p f l'
  end.

Definition Photo_query_get (photo_id : string) : M (option Photo.t) :=
  fun st => (Ok (find (fun p => Photo.id p =? photo_id) (photos (session st))), st).

Definition Person_query_get (person_id : string) : M (option Person.t) :=
  fun st => (Ok (find (fun p => Person.id p =? person_id) (persons (session st))), st).

Definition Person_query_all : M (list Person.t) :=
  fun st => (Ok (persons (session st)), st).

Definition Person_query_count : M nat :=
  fun st => (Ok (List.length (persons (session st))), st).

(** [ProcessingQueue.query.filter_by(photo_id=photo_id).first()] *)
Definition ProcessingQueue_first (photo_id : string) (db : DB)
  : option ProcessingQueue.t :=
  find (fun q => ProcessingQueue.photo_id q =? photo_id) (processing_queue db).

Definition update_photo (photo_id : string) (f : Photo.t -> Photo.t) : M unit :=
  modify_session (fun db =>
    mkDB (update_first (fun p => Photo.id p =? photo_id) f (photos db))
         (persons db) (face_matches db) (processing_queue db)).

Definition update_person (person_id : string) (f : Person.t -> Person.t) : M unit :=
  modify_session (fun db =>
    mkDB (photos db)
         (update_first (fun p => Person.id p =? person_id) f (persons db))
         (face_matches db) (processing_queue db)).

(** An assignment to an attribute of [queue_item], the first queue row of
    the photo. *)
Definition update_queue_item (photo_id : string)
  (f : ProcessingQueue.t -> ProcessingQueue.t) : M unit :=
  modify_session (fun db =>
    mkDB (photos db) (persons db) (face_matches db)
         (update_first (fun q => ProcessingQueue.photo_id q =? photo_id) f
            (processing_queue db))).

Definition add_person (p : Person.t) : M unit :=
  modify_session (fun db =>
    mkDB (photos db) (persons db ++ [p])%list (face_matches db) (processing_queue db)).

Definition add_face_match (m : FaceMatch.t) : M unit :=
  modify_session (fun db =>
    mkDB (photos db) (persons db) (face_matches db ++ [m])%list (processing_queue db)).

(** ** The environment *)

(** [Config] is not part of the sources; its three values used here are
    parameters. *)
Record Config : Type := mkConfig {
  FACE_RECOGNITION_TOLERANCE : Q;
  AWS_S3_BUCKET : string;
  AWS_REGION : string
}.

Record Env (image : Type) : Type := mkEnv {
  (** [get_object], [Image.open] and [np.array] on the key *)
  s3_get_object : string -> s3_reply image;
  (** [put_object] of a body under a key *)
  s3_put_object : string -> string -> s3_reply unit;
  (** [face_recognition.face_locations(image, model='hog')] *)
  face_locations : image -> outcome (list box);
  (** [face_recognition.face_encodings(image, locations)] *)
  face_encodings : image -> list box -> outcome (list encoding);
  (** [image_array[top:bottom, left:right]] *)
  crop : image -> box -> image;
  (** PIL: [fromarray], [thumbnail((n, n))], [save] as JPEG *)
  pil_thumbnail : image -> nat -> outcome string;
  (** [np.linalg.norm(known - face)] of one row *)
  norm : encoding -> encoding -> Q;
  (** the result of the n-th call of [uuid.uuid4()], as text *)
  uuid4 : nat -> string
}.
Arguments s3_get_object {image} e _.
Arguments s3_put_object {image} e _ _.
Arguments face_locations {image} e _.
Arguments face_encodings {image} e _ _.
Arguments crop {image} e _ _.
Arguments pil_thumbnail {image} e _ _.
Arguments norm {image} e _ _.
Arguments uuid4 {image} e _.

Definition Qlt_bool (a b : Q) : bool := negb (Qle_bool b a).

(** [np.argmin]: the index of the first occurrence of the minimum.
    [argmin_from bi b i l] scans [l], whose head has index [i], with [b]
    at index [bi] the least value seen so far. *)
Fixpoint argmin_from (best_i : nat) (best : Q) (i : nat) (l : list Q) : nat :=
  match l with
  | [] => best_i
  | d :: l' =>
      if Qlt_bool d best then argmin_from i d (S i) l'
      else argmin_from best_i best (S i) l'
  end.

(** On an empty array NumPy raises; the only call is guarded by
    [True in matches], so the array is not empty there. *)
Definition argmin (l : list Q) : nat :=
  match l with
  | [] => 0%nat
  | d :: l' => argmin_from 0 d 1 l'
  end.

Definition nat_to_string (n : nat) : string :=
  NilEmpty.string_of_uint (Nat.to_uint n).

Inductive result : Type :=
| Success (faces_found : nat)
| Failure (error : string).

(** The local variables of the loop over the faces. *)
Record Locals : Type := mkLocals {
  known_encodings : list encoding;
  known_person_ids : list string;
  faces_processed : nat
}.

Section FaceProcessor.

Context {image : Type}.
Variable env : Env image.
Variable cfg : Config.

Definition fresh_uuid : M string :=
  fun st => (Ok (uuid4 env (uuid_calls st)),
             mkSession (committed st) (session st) (S (uuid_calls st))).

(** *** face_recognition.api *)

Definition face_distance (known : list encoding) (face : encoding) : list Q :=
  map (fun k => norm env k face) known.

Definition compare_faces (known : list encoding) (face : encoding)
  (tolerance : Q) : list bool :=
  map (fun d => Qle_bool d tolerance) (face_distance known face).

(** *** face_processor.py *)

Definition download_image_from_s3 (s3_key : string) : M (option image) :=
  match s3_get_object env s3_key with
  | S3Ok img => ret (Some img)
  | S3ClientError => ret None
  | S3OtherError msg => raise msg
  end.

Definition upload_to_s3 (file_data s3_key : string) : M (option string) :=
  match s3_put_object env s3_key file_data with
  | S3Ok _ =>
      ret (Some (AWS_S3_BUCKET cfg ++ ".s3." ++ AWS_REGION cfg
                 ++ ".amazonaws.com/" ++ s3_key))
  | S3ClientError => ret None
  | S3OtherError msg => raise msg
  end.

Definition create_thumbnail (image_array : image) : M string :=
  lift (pil_thumbnail env image_array 200).

(** The matching decision of one face (the block under
    [if len(known_encodings) > 0], without the update of the person):
    [Some (person_id, confidence)] or [None] when [person_id] stays
    [None]. *)
Definition find_match (known_encodings : list encoding)
  (known_person_ids : list string) (face_encoding : encoding)
  : outcome (option (string * Q)) :=
  if (0 <? List.length known_encodings)%nat then
    let matches :=
      compare_faces known_encodings face_encoding
        (FACE_RECOGNITION_TOLERANCE cfg) in
    let face_distances := face_distance known_encodings face_encoding in
    if existsb (fun b => b) matches then
      let best_match_index := argmin face_distances in
      match nth_error matches best_match_index with
      | None => Raise "list index out of range"
      | Some false => Ok None
      | Some true =>
          match nth_error known_person_ids best_match_index,
                nth_error face_distances best_match_index with
          | Some person_id, Some d => Ok (Some (person_id, 1 - d)%Q)
          | _, _ => Raise "list index out of range"
          end
      end
    else Ok None
  else Ok None.

(** The body of the loop, for one pair of [zip(face_encodings,
    face_locations)]. *)
Definition process_face (photo_id : string) (image_array : image)
  (loc : Locals) (face : encoding * box) : M Locals :=
  let '(face_encoding, face_location) := face in
  found <- lift (find_match (known_encodings loc) (known_person_ids loc)
                   face_encoding) ;;
  matched <-
    match found with
    | Some (person_id, confidence) =>
        person <- Person_query_get person_id ;;
        match person with
        | None => raise "'NoneType' object has no attribute 'photo_count'"
        | Some person =>
            update_person person_id
              (Person.set_photo_count (Person.photo_count person + 1)) ;;;
            ret (Some (person_id, confidence))
        end
    | None => ret None
    end ;;
  assigned <-
    match matched with
    | Some (person_id, confidence) => ret (person_id, confidence, loc)
    | None =>
        let face_image := crop env image_array face_location in
        face_thumbnail <- create_thumbnail face_image ;;
        u <- fresh_uuid ;;
        let thumbnail_key := "thumbnails/" ++ u ++ ".jpg" in
        _thumbnail_url <- upload_to_s3 face_thumbnail thumbnail_key ;;
        person_id <- fresh_uuid ;;
        n <- Person_query_count ;;
        let person_count := (n + 1)%nat in
        add_person
          (Person.mk person_id ("人物 " ++ nat_to_string person_count)
             face_encoding (Some thumbnail_key) 1) ;;;
        ret (person_id, 1%Q,
             mkLocals (known_encodings loc ++ [face_encoding])%list
                      (known_person_ids loc ++ [person_id])%list
                      (faces_processed loc))
    end ;;
  let '(person_id, confidence, loc') := assigned in
  fm_id <- fresh_uuid ;;
  add_face_match
    (FaceMatch.mk fm_id photo_id person_id face_location confidence
       face_encoding) ;;;
  ret (mkLocals (known_encodings loc') (known_person_ids loc')
         (S (faces_processed loc'))).

Fixpoint process_faces (photo_id : string) (image_array : image)
  (loc : Locals) (faces : list (encoding * box)) : M Locals :=
  match faces with
  | [] => ret loc
  | face :: faces' =>
      loc' <- process_face photo_id image_array loc face ;;
      process_faces photo_id image_array loc' faces'
  end.

(** The block under [try]. *)
Definition process_body (photo_id : string) : M result :=
  photo <- Photo_query_get photo_id ;;
  match photo with
  | None => raise "Photo not found"
  | Some photo =>
      image_array <- download_image_from_s3 (Photo.s3_key photo) ;;
      match image_array with
      | None => raise "Failed to download image from S3"
      | Some image_array =>
          locations <- lift (face_locations env image_array) ;;
          encodings <- lift (face_encodings env image_array locations) ;;
          if (List.length encodings =? 0)%nat then
            update_photo photo_id (Photo.set_processed true) ;;;
            update_photo photo_id (Photo.set_face_count 0) ;;;
            update_queue_item photo_id (ProcessingQueue.set_status completed) ;;;
            commit ;;;
            ret (Success 0)
          else
            all_persons <- Person_query_all ;;
            let loc0 :=
              mkLocals (map Person.face_encoding all_persons)
                       (map Person.id all_persons) 0 in
            loc <- process_faces photo_id image_array loc0
                     (combine encodings locations) ;;
            update_photo photo_id (Photo.set_processed true) ;;;
            update_photo photo_id
              (Photo.set_face_count (Z.of_nat (faces_processed loc))) ;;;
            update_queue_item photo_id (ProcessingQueue.set_status completed) ;;;
            commit ;;;
            ret (Success (faces_processed loc))
      end
  end.

(** [queue_item.status = 'processing'; db.session.commit()] *)
Definition lease (photo_id : string) : M unit :=
  update_queue_item photo_id (ProcessingQueue.set_status processing) ;;;
  commit.

(** The [except Exception as e] handler. *)
Definition on_failure (photo_id : string) (e : string) : M unit :=
  update_queue_item photo_id (ProcessingQueue.set_status failed) ;;;
  update_queue_item photo_id (ProcessingQueue.set_error_message (Some e)) ;;;
  commit.

Definition process_single_photo (photo_id : string) (st : Session)
  : result * Session :=
  match ProcessingQueue_first photo_id (session st) with
  | None => (Failure "Queue item not found", st)
  | Some _ =>
      let st1 := snd (lease photo_id st) in
      match process_body photo_id st1 with
      | (Ok r, st2) => (r, st2)
      | (Raise e, st2) => (Failure e, snd (on_failure photo_id e st2))
      end
  end.

End FaceProcessor.

(** ** app.py *)

(** [ProcessingQueue.query.filter_by(status='pending').limit(100).all()],
    the rows [start_processing] hands to the workers; it assigns to no
    row.  The query has no ORDER BY: the order in which the rows of the
    table come back is the choice of the database, [scan], which rearranges
    the table; LIMIT keeps the first 100 of the pending rows in that
    order. *)
Definition pending_queue
  (scan : list ProcessingQueue.t -> list ProcessingQueue.t) (db : DB)
  : list ProcessingQueue.t :=
  firstn 100
    (filter (fun q => Status_eqb (ProcessingQueue.status q) pending)
       (scan (processing_queue db))).

(** The photo identifiers passed to [process_photo_task.delay], in order,
    by an authenticated call (an unauthenticated one is answered 401 before
    the queue is read); the empty list is the answer "count: 0". *)
Definition start_processing
  (scan : list ProcessingQueue.t -> list ProcessingQueue.t) (db : DB)
  : list string :=
  map ProcessingQueue.photo_id (pending_queue scan db).

(** "In insertion order (oldest first)": the rows selected are the first
    pending rows of the table as it was filled. *)
Definition selects_oldest_first
  (scan : list ProcessingQueue.t -> list ProcessingQueue.t) : Prop :=
  forall db, exists rest,
    filter (fun q => Status_eqb (ProcessingQueue.status q) pending)
      (processing_queue db) = (pending_queue scan db ++ rest)%list.

(** *** The other routes

    A route is given the answer of [check_auth()]; what it sends back is
    one of the kinds of answer below (500 is what Flask makes of an
    exception that no handler caught), with the data of the JSON body that
    the statements speak of. *)

Inductive response (A : Type) : Type :=
| Ok200 (body : A)
| BadRequest400 (error : string)
| Unauthorized401
| NotFound404
| ServerError500 (error : string).
Arguments Ok200 {A} body.
Arguments BadRequest400 {A} error.
Arguments Unauthorized401 {A}.
Arguments NotFound404 {A}.
Arguments ServerError500 {A} error.

Module App.

(** One entry of [request.files.getlist('files')]. *)
Record FileStorage : Type := mkFile {
  filename : string;
  content_type : option string;
  data : string
}.

(** Where the upload route puts the bytes: [s3_configured] is
    [s3_client and Config.AWS_S3_BUCKET]; [put_object] takes the key, the
    body and the content type, [write_file] the path and the body; either
    may raise.  [MAX_UPLOAD_SIZE] is the attribute of [Config], if it has
    one. *)
Record Storage : Type := mkStorage {
  s3_configured : bool;
  put_object : string -> string -> string -> outcome unit;
  write_file : string -> string -> outcome unit;
  MAX_UPLOAD_SIZE : option nat
}.

(** The body of the answer of the upload route. *)
Record Uploaded : Type := mkUploaded {
  uploaded : nat;
  errors : list (string * string);
  photos_sent : list Photo.t
}.

(** The primary key the database gives a new queue row: one more than
    the greatest in the table. *)
Definition next_queue_id (db : DB) : Z :=
  1 + fold_right (fun q m => Z.max (ProcessingQueue.id q) m) 0%Z
        (processing_queue db).

Definition add_photo (p : Photo.t) : M unit :=
  modify_session (fun db =>
    mkDB (photos db ++ [p])%list (persons db) (face_matches db)
         (processing_queue db)).

Definition add_queue_item (photo_id : string) : M unit :=
  modify_session (fun db =>
    mkDB (photos db) (persons db) (face_matches db)
         (processing_queue db
          ++ [ProcessingQueue.mk (next_queue_id db) photo_id pending None])%list).

(** The body of the loop of [upload_photos], with its [try]: the lists
    [uploaded] and [errors] before and after one file. *)
Definition upload_file {image : Type} (env : Env image) (sto : Storage)
  (acc : list Photo.t * list (string * string)) (file : FileStorage)
  : M (list Photo.t * list (string * string)) :=
  if (filename file =? "")%string then ret acc
  else
    photo_id <- fresh_uuid env ;;
    let stored :=
      if s3_configured sto then
        let s3_key := "photos/" ++ photo_id ++ "/" ++ filename file in
        (s3_key,
         put_object sto s3_key (data file)
           (match content_type file with
            | Some c => if (c =? "")%string then "image/jpeg" else c
            | None => "image/jpeg"
            end))
      else
        let s3_key := "uploads/" ++ photo_id ++ "_" ++ filename file in
        (s3_key,
         write_file sto ("uploads/" ++ photo_id ++ "_" ++ filename file)
           (data file)) in
    match snd stored with
    | Raise e => ret (fst acc, (snd acc ++ [(filename file, e)])%list)
    | Ok _ =>
        let photo := Photo.mk photo_id (fst stored) false 0 in
        add_photo photo ;;;
        add_queue_item photo_id ;;;
        ret ((fst acc ++ [photo])%list, snd acc)
    end.

Fixpoint upload_files {image : Type} (env : Env image) (sto : Storage)
  (acc : list Photo.t * list (string * string)) (files : list FileStorage)
  : M (list Photo.t * list (string * string)) :=
  match files with
  | [] => ret acc
  | file :: files' =>
      acc' <- upload_file env sto acc file ;;
      upload_files env sto acc' files'
  end.

Definition max_upload (sto : Storage) : nat :=
  match MAX_UPLOAD_SIZE sto with
  | Some n => n
  | None => 500
  end.

(** [files] is [None] when the request has no part named 'files'. *)
Definition upload_photos {image : Type} (env : Env image) (sto : Storage)
  (authenticated : bool) (files : option (list FileStorage)) (st : Session)
  : response Uploaded * Session :=
  if negb authenticated then (Unauthorized401, st)
  else
    match files with
    | None => (BadRequest400 "No files provided", st)
    | Some files =>
        if (max_upload sto <? List.length files)%nat then
          (BadRequest400
             ("最大" ++ nat_to_string (max_upload sto) ++ "枚まで"), st)
        else
          match (acc <- upload_files env sto ([], []) files ;;
                 commit ;;;
                 ret acc) st with
          | (Ok acc, st') =>
              (Ok200 (mkUploaded (List.length (fst acc)) (snd acc) (fst acc)),
               st')
          | (Raise e, st') => (ServerError500 e, st')
          end
    end.

Definition set_name (n : string) (p : Person.t) : Person.t :=
  Person.mk (Person.id p) n (Person.face_encoding p)
    (Person.thumbnail_s3_key p) (Person.photo_count p).

(** PATCH /api/persons/<person_id>; [new_name] is [data['name']] when the
    JSON body has the key. *)
Definition update_person (authenticated : bool) (person_id : string)
  (new_name : option string) (st : Session) : response Person.t * Session :=
  if negb authenticated then (Unauthorized401, st)
  else
    match find (fun p => Person.id p =? person_id)%string
            (persons (session st)) with
    | None => (NotFound404, st)
    | Some person =>
        match new_name with
        | Some n =>
            (Ok200 (set_name n person),
             snd ((update_person person_id (set_name n) ;;; commit) st))
        | None => (Ok200 person, st)
        end
    end.

(** The body of the answer of GET /api/queue/status. *)
Record QueueStatus : Type := mkQueueStatus {
  n_pending : nat;
  n_processing : nat;
  n_completed : nat;
  n_failed : nat;
  total : nat
}.

Definition count_status (s : Status) (db : DB) : nat :=
  List.length
    (filter (fun q => Status_eqb (ProcessingQueue.status q) s)
       (processing_queue db)).

Definition get_queue_status (authenticated : bool) (db : DB)
  : response QueueStatus :=
  if negb authenticated then Unauthorized401
  else
    let pending := count_status pending db in
    let processing := count_status processing db in
    let completed := count_status completed db in
    let failed := count_status failed db in
    Ok200 (mkQueueStatus pending processing completed failed
             (pending + processing + completed + failed)).

End App.

(** The sum of the [photo_count] column. *)
Definition total_photo_count (P : list Person.t) : Z :=
  fold_right (fun p n => (Person.photo_count p + n)%Z) 0%Z P.

(** *** What an upload is expected to store

    The named files of a request, each with the identifier that
    [uuid.uuid4()] gives it when [n] calls were made before the request:
    a file with an empty name draws none. *)
Fixpoint numbered {image : Type} (env : Env image) (n : nat)
  (files : list App.FileStorage) : list (App.FileStorage * string) :=
  match files with
  | [] => []
  | file :: files' =>
      if (App.filename file =? "")%string then numbered env n files'
      else (file, uuid4 env n) :: numbered env (S n) files'
  end.

(** The key of a file under its photo identifier, and what the storage
    answers when the bytes are put there. *)
Definition storage_key (sto : App.Storage) (photo_id : string)
  (file : App.FileStorage) : string :=
  if App.s3_configured sto
  then "photos/" ++ photo_id ++ "/" ++ App.filename file
  else "uploads/" ++ photo_id ++ "_" ++ App.filename file.

Definition storage_answer (sto : App.Storage) (photo_id : string)
  (file : App.FileStorage) : outcome unit :=
  if App.s3_configured sto then
    App.put_object sto (storage_key sto photo_id file) (App.data file)
      (match App.content_type file with
       | Some c => if (c =? "")%string then "image/jpeg" else c
       | None => "image/jpeg"
       end)
  else App.write_file sto (storage_key sto photo_id file) (App.data file).

(** The photos of the files that were stored, and the errors of the files
    that were not, in the order of the files. *)
Definition photos_of (sto : App.Storage)
  (named : list (App.FileStorage * string)) : list Photo.t :=
  flat_map (fun p =>
              match storage_answer sto (snd p) (fst p) with
              | Ok _ =>
                  [Photo.mk (snd p) (storage_key sto (snd p) (fst p)) false 0]
              | Raise _ => []
              end) named.

Definition errors_of (sto : App.Storage)
  (named : list (App.FileStorage * string)) : list (string * string) :=
  flat_map (fun p =>
              match storage_answer sto (snd p) (fst p) with
              | Ok _ => []
              | Raise e => [(App.filename (fst p), e)]
              end) named.

(** ** When the database refuses a flush

    In the definitions above the database accepts whatever is flushed to
    it.  Here it may refuse: [flush db] is what it answers when the pending
    changes that make the session [db] are flushed, [None] when it takes
    them, the text of the error otherwise.  SQLAlchemy flushes before the
    SELECT of [Person.query.count()], before the SELECT of a
    [Person.query.get] that the identity map does not answer, and at every
    [commit()]; when a flush fails it rolls the transaction back, so the
    session is again what was last committed, and until [rollback()] is
    called every later [commit()] raises.  Whether the identity map still
    holds a row depends on what was flushed and on the garbage collector:
    [held st person_id] tells it, and the statements are made for every
    [held].  (The queries before the loop find nothing to flush.  A failure
    of a SELECT itself is not modelled.) *)

Inductive outcome_db (A : Type) : Type :=
| Done (a : A)
| Raised (e : string)
| Refused (e : string).
Arguments Done {A} a.
Arguments Raised {A} e.
Arguments Refused {A} e.

Definition Mdb (A : Type) : Type := Session -> outcome_db A * Session.

Definition ret_db {A} (a : A) : Mdb A := fun st => (Done a, st).
Definition bind_db {A B} (m : Mdb A) (k : A -> Mdb B) : Mdb B :=
  fun st =>
    match m st with
    | (Done a, st') => k a st'
    | (Raised e, st') => (Raised e, st')
    | (Refused e, st') => (Refused e, st')
    end.

(** A step in which the database refuses nothing. *)
Definition sure {A} (m : M A) : Mdb A :=
  fun st =>
    match m st with
    | (Ok a, st') => (Done a, st')
    | (Raise e, st') => (Raised e, st')
    end.

Notation "x <~ m ;; k" := (bind_db m (fun x => k))
  (at level 61, m at next level, right associativity).
Notation "m ;;~ k" := (bind_db m (fun _ => k))
  (at level 61, right associativity).

(** How a call ends for its caller: with a returned dictionary, or with
    an exception that nothing caught (for a refused flush, the
    [PendingRollbackError] of the handler's commit, which quotes the error
    [e] of the flush). *)
Inductive ended : Type :=
| Returned (r : result)
| Uncaught (e : string).

Section Refusing.

Context {image : Type}.
Variable env : Env image.
Variable cfg : Config.
Variable flush : DB -> option string.
Variable held : Session -> string -> bool.

Definition autoflush : Mdb unit :=
  fun st =>
    match flush (session st) with
    | None => (Done tt, st)
    | Some e =>
        (Refused e, mkSession (committed st) (committed st) (uuid_calls st))
    end.

Definition commit_db : Mdb unit := autoflush ;;~ sure commit.

Definition Person_query_get_db (person_id : string) : Mdb (option Person.t) :=
  fun st =>
    if held st person_id then sure (Person_query_get person_id) st
    else (autoflush ;;~ sure (Person_query_get person_id)) st.

Definition process_face_db (photo_id : string) (image_array : image)
  (loc : Locals) (face : encoding * box) : Mdb Locals :=
  let '(face_encoding, face_location) := face in
  found <~ sure (lift (find_match env cfg (known_encodings loc)
                         (known_person_ids loc) face_encoding)) ;;
  matched <~
    match found with
    | Some (person_id, confidence) =>
        person <~ Person_query_get_db person_id ;;
        match person with
        | None =>
            sure (raise "'NoneType' object has no attribute 'photo_count'")
        | Some person =>
            sure (update_person person_id
                    (Person.set_photo_count (Person.photo_count person + 1))) ;;~
            ret_db (Some (person_id, confidence))
        end
    | None => ret_db None
    end ;;
  assigned <~
    match matched with
    | Some (person_id, confidence) => ret_db (person_id, confidence, loc)
    | None =>
        let face_image := crop env image_array face_location in
        face_thumbnail <~ sure (create_thumbnail env face_image) ;;
        u <~ sure (fresh_uuid env) ;;
        let thumbnail_key := "thumbnails/" ++ u ++ ".jpg" in
        _thumbnail_url <~ sure (upload_to_s3 env cfg face_thumbnail
                                  thumbnail_key) ;;
        person_id <~ sure (fresh_uuid env) ;;
        autoflush ;;~
        n <~ sure Person_query_count ;;
        let person_count := (n + 1)%nat in
        sure (add_person
                (Person.mk person_id ("人物 " ++ nat_to_string person_count)
                   face_encoding (Some thumbnail_key) 1)) ;;~
        ret_db (person_id, 1%Q,
                mkLocals (known_encodings loc ++ [face_encoding])%list
                         (known_person_ids loc ++ [person_id])%list
                         (faces_processed loc))
    end ;;
  let '(person_id, confidence, loc') := assigned in
  fm_id <~ sure (fresh_uuid env) ;;
  sure (add_face_match
          (FaceMatch.mk fm_id photo_id person_id face_location confidence
             face_encoding)) ;;~
  ret_db (mkLocals (known_encodings loc') (known_person_ids loc')
            (S (faces_processed loc'))).

Fixpoint process_faces_db (photo_id : string) (image_array : image)
  (loc : Locals) (faces : list (encoding * box)) : Mdb Locals :=
  match faces with
  | [] => ret_db loc
  | face :: faces' =>
      loc' <~ process_face_db photo_id image_array loc face ;;
      process_faces_db photo_id image_array loc' faces'
  end.

Definition process_body_db (photo_id : string) : Mdb result :=
  photo <~ sure (Photo_query_get photo_id) ;;
  match photo with
  | None => sure (raise "Photo not found")
  | Some photo =>
      image_array <~ sure (download_image_from_s3 env (Photo.s3_key photo)) ;;
      match image_array with
      | None => sure (raise "Failed to download image from S3")
      | Some image_array =>
          locations <~ sure (lift (face_locations env image_array)) ;;
          encodings <~ sure (lift (face_encodings env image_array locations)) ;;
          if (List.length encodings =? 0)%nat then
            sure (update_photo photo_id (Photo.set_processed true)) ;;~
            sure (update_photo photo_id (Photo.set_face_count 0)) ;;~
            sure (update_queue_item photo_id
                    (ProcessingQueue.set_status completed)) ;;~
            commit_db ;;~
            ret_db (Success 0)
          else
            all_persons <~ sure Person_query_all ;;
            let loc0 :=
              mkLocals (map Person.face_encoding all_persons)
                       (map Person.id all_persons) 0 in
            loc <~ process_faces_db photo_id image_array loc0
                     (combine encodings locations) ;;
            sure (update_photo photo_id (Photo.set_processed true)) ;;~
            sure (update_photo photo_id
                    (Photo.set_face_count (Z.of_nat (faces_processed loc)))) ;;~
            sure (update_queue_item photo_id
                    (ProcessingQueue.set_status completed)) ;;~
            commit_db ;;~
            ret_db (Success (faces_processed loc))
      end
  end.

Definition lease_db (photo_id : string) : Mdb unit :=
  sure (update_queue_item photo_id (ProcessingQueue.set_status processing)) ;;~
  commit_db.

(** The handler: the two assignments, then the commit. *)
Definition on_failure_db (photo_id : string) (e : string) : Mdb unit :=
  sure (update_queue_item photo_id (ProcessingQueue.set_status failed)) ;;~
  sure (update_queue_item photo_id
          (ProcessingQueue.set_error_message (Some e))) ;;~
  commit_db.

(** After a refused flush the handler makes its two assignments and its
    commit raises; the exception leaves the function, and the session,
    discarded when the application context closes, holds what was last
    committed.  An exception of the commit before [try] leaves the
    function too. *)
Definition process_single_photo_db (photo_id : string) (st : Session)
  : ended * Session :=
  match ProcessingQueue_first photo_id (session st) with
  | None => (Returned (Failure "Queue item not found"), st)
  | Some _ =>
      match lease_db photo_id st with
      | (Done _, st1) =>
          match process_body_db photo_id st1 with
          | (Done r, st2) => (Returned r, st2)
          | (Raised e, st2) =>
              match on_failure_db photo_id e st2 with
              | (Done _, st3) => (Returned (Failure e), st3)
              | (Raised e', st3) => (Uncaught e', st3)
              | (Refused e', st3) => (Uncaught e', st3)
              end
          | (Refused e, st2) => (Uncaught e, st2)
          end
      | (Raised e, st1) => (Uncaught e, st1)
      | (Refused e, st1) => (Uncaught e, st1)
      end
  end.

End Refusing.

(** ** The matching rule as the specification words it

    "A person is a candidate if distance <= matchTolerance.  Among
    candidates, select the one with minimum distance.  If no candidate
    exists, signal new."  The rule is written here over the list of
    (identifier, reference encoding) pairs; it answers with the selected
    person and its distance. *)

(** The first element of [best :: l] whose key is least. *)
Fixpoint min_by {X} (key : X -> Q) (best : X) (l : list X) : X :=
  match l with
  | [] => best
  | x :: l' =>
      if Qlt_bool (key x) (key best) then min_by key x l'
      else min_by key best l'
  end.

Section SpecifiedRule.

Context {image : Type}.
Variable env : Env image.
Variable matchTolerance : Q.

Definition distance_to (face : encoding) (p : string * encoding) : Q :=
  norm env (snd p) face.

Definition spec_candidates (known : list (string * encoding))
  (face : encoding) : list (string * encoding) :=
  filter (fun p => Qle_bool (distance_to face p) matchTolerance) known.

Definition spec_match (known : list (string * encoding)) (face : encoding)
  : option (string * Q) :=
  match spec_candidates known face with
  | [] => None
  | c :: cs =>
      let b := min_by (distance_to face) c cs in
      Some (fst b, distance_to face b)
  end.

End SpecifiedRule.

(** "Ties broken by lowest person identifier": whenever the source selects
    a person, no candidate of least distance has a smaller identifier
    (identifiers are compared as Python compares strings). *)
Definition lowest_identifier_on_ties {image : Type} (env : Env image)
  (cfg : Config) : Prop :=
  forall (known : list (string * encoding)) (face : encoding)
         (person_id : string) (confidence : Q),
    find_match env cfg (map snd known) (map fst known) face
    = Ok (Some (person_id, confidence)) ->
    forall q, In q known ->
      (distance_to env face q <= FACE_RECOGNITION_TOLERANCE cfg)%Q ->
      (forall y, In y known -> (distance_to env face q <= distance_to env face y)%Q) ->
      String.leb person_id (fst q) = true.

(** ** Vocabulary of the statements *)

(** The rows [P'] are the rows [P] up to their counters: same identifiers
    and same reference encodings, in the same order. *)
Definition same_identities (P P' : list Person.t) : Prop :=
  map Person.id P' = map Person.id P
  /\ map Person.face_encoding P' = map Person.face_encoding P.

(** The working lists of the loop are the identifiers and the reference
    encodings of the rows [P], in order. *)
Definition working_set (loc : Locals) (P : list Person.t) : Prop :=
  known_person_ids loc = map Person.id P
  /\ known_encodings loc = map Person.face_encoding P.

(** What a FaceMatch row keeps of the detected face. *)
Definition detected (m : FaceMatch.t) : encoding * box :=
  (FaceMatch.face_encoding m, FaceMatch.bounding_box m).

(** The errors raised under [try] before the loop over the faces, with
    the text [str(e)] of each. *)
Inductive fails_before_faces {image : Type} (env : Env image)
  (photo_id : string) (db : DB) : string -> Prop :=
| photo_missing :
    find (fun p => Photo.id p =? photo_id) (photos db) = None ->
    fails_before_faces env photo_id db "Photo not found"
| download_failed photo :
    find (fun p => Photo.id p =? photo_id) (photos db) = Some photo ->
    s3_get_object env (Photo.s3_key photo) = S3ClientError ->
    fails_before_faces env photo_id db "Failed to download image from S3"
| download_raised photo msg :
    find (fun p => Photo.id p =? photo_id) (photos db) = Some photo ->
    s3_get_object env (Photo.s3_key photo) = S3OtherError msg ->
    fails_before_faces env photo_id db msg
| face_locations_raised photo img msg :
    find (fun p => Photo.id p =? photo_id) (photos db) = Some photo ->
    s3_get_object env (Photo.s3_key photo) = S3Ok img ->
    face_locations env img = Raise msg ->
    fails_before_faces env photo_id db msg
| face_encodings_raised photo img locations msg :
    find (fun p => Photo.id p =? photo_id) (photos db) = Some photo ->
    s3_get_object env (Photo.s3_key photo) = S3Ok img ->
    face_locations env img = Ok locations ->
    face_encodings env img locations = Raise msg ->
    fails_before_faces env photo_id db msg.

(** ** A concrete world

    One-dimensional encodings, on which the Euclidean norm of a difference
    is its absolute value.  An image is represented by what the detector
    finds in it. *)

Module Sample.

Definition image : Type := list (encoding * box).

Definition norm1 (a b : encoding) : Q := Qabs (hd 0%Q a - hd 0%Q b).

Definition uuid (n : nat) : string := "uuid-" ++ nat_to_string n.

Definition box_eqb (a b : box) : bool :=
  let '(t, r, bo, l) := a in
  let '(t', r', bo', l') := b in
  ((t =? t') && (r =? r') && (bo =? bo') && (l =? l'))%Z.

Definition world (get : string -> s3_reply image)
  (locate : image -> outcome (list box))
  (thumb : image -> outcome string) : Env image :=
  mkEnv image get (fun _ _ => S3Ok tt) locate
    (fun img _ => Ok (map fst img))
    (fun img b => filter (fun f => box_eqb (snd f) b) img)
    (fun img _ => thumb img)
    norm1 uuid.

(** The n-th face of a picture. *)
Definition face (n : Z) (e : Q) : encoding * box :=
  ([e], (10, 60 + 100 * n, 70, 20 + 100 * n)%Z).

(** Every key holds the given picture, and nothing fails. *)
Definition calm (picture : image) : Env image :=
  world (fun _ => S3Ok picture)
        (fun img => Ok (map snd img))
        (fun _ => Ok "jpeg").

(** The detector raises an exception whose text is [msg]. *)
Definition broken_detector (msg : string) : Env image :=
  world (fun _ => S3Ok []) (fun _ => Raise msg) (fun _ => Ok "jpeg").


(** S3 answers every download with [ClientError]. *)
Definition s3_down : Env image :=
  world (fun _ => S3ClientError) (fun img => Ok (map snd img))
        (fun _ => Ok "jpeg").

Definition cfg (tolerance : Q) : Config :=
  mkConfig tolerance "bucket" "ap-northeast-1".

Definition photo1 : Photo.t :=
  Photo.mk "photo-1" "photos/photo-1/a.jpg" false 0.

Definition entry1 (s : Status) : ProcessingQueue.t :=
  ProcessingQueue.mk 1 "photo-1" s None.

Definition person (id : string) (e : Q) (n : Z) : Person.t :=
  Person.mk id ("person " ++ id) [e] None n.

Definition start (db : DB) : Session := mkSession db db 0.

End Sample.


(** The row [p'] is the row [p] with a counter that did not go down. *)
Definition counted_up (p p' : Person.t) : Prop :=
  Person.id p' = Person.id p
  /\ Person.name p' = Person.name p
  /\ Person.face_encoding p' = Person.face_encoding p
  /\ Person.thumbnail_s3_key p' = Person.thumbnail_s3_key p
  /\ (Person.photo_count p <= Person.photo_count p')%Z.

(** The table [Q] is the table [P] with counters that did not go down,
    followed by new rows. *)
Definition persons_grow (P Q : list Person.t) : Prop :=
  exists P' N, Q = (P' ++ N)%list /\ Forall2 counted_up P P'.

Module SampleApp.

(** S3 refuses every upload with [ClientError]; nothing else fails. *)
Definition s3_read_only (picture : Sample.image) : Env Sample.image :=
  mkEnv Sample.image (fun _ => S3Ok picture) (fun _ _ => S3ClientError)
    (fun img => Ok (map snd img)) (fun img _ => Ok (map fst img))
    (fun img b => filter (fun f => Sample.box_eqb (snd f) b) img)
    (fun _ _ => Ok "jpeg") Sample.norm1 Sample.uuid.

(** S3 is configured and refuses the keys that end in ".gif". *)
Definition picky_s3 : App.Storage :=
  App.mkStorage true
    (fun key _ _ =>
       if String.eqb (substring (String.length key - 4) 4 key) ".gif"
       then Raise "An error occurred (AccessDenied)"
       else Ok tt)
    (fun _ _ => Ok tt) None.

Definition file (name : string) : App.FileStorage :=
  App.mkFile name (Some "image/jpeg") "bytes".


End SampleApp.

(** * Properties *)

Local Open Scope list_scope.

(** ** The matcher *)

Section MatcherFacts.

Context {X : Type}.
Variable key : X -> Q.
Variable tol : Q.

Let near (x : X) : bool := Qle_bool (key x) tol.

Lemma min_by_In (l : list X) (best : X) :
  In (min_by key best l) (best :: l).
Proof.
  revert best; induction l as [|x l IH]; intros best; simpl.
  - now left.
  - destruct (Qlt_bool (key x) (key best)).
    + right. apply IH.
    + destruct (IH best) as [E|E]; [left | right; right]; assumption.
Qed.

Lemma far_not_below (x best : X) :
  near x = false -> near best = true ->
  Qlt_bool (key x) (key best) = false.
Proof.
  unfold near, Qlt_bool. intros Hx Hb.
  apply negb_false_iff, Qle_bool_iff.
  apply Qle_bool_iff in Hb.
  destruct (Qlt_le_dec tol (key x)) as [Hlt|Hle].
  - apply Qle_trans with tol; [assumption | now apply Qlt_le_weak].
  - apply Qle_bool_iff in Hle. unfold near in Hx. congruence.
Qed.

Lemma near_below_far (x best : X) :
  near x = true -> near best = false ->
  Qlt_bool (key x) (key best) = true.
Proof.
  unfold near, Qlt_bool. intros Hx Hb.
  apply negb_true_iff.
  destruct (Qle_bool (key best) (key x)) eqn:E; [|reflexivity].
  apply Qle_bool_iff in E, Hx.
  assert (H : Qle_bool (key best) tol = true)
    by (apply Qle_bool_iff; now apply Qle_trans with (key x)).
  congruence.
Qed.

(** Starting from a candidate, the elements beyond the tolerance never
    win. *)
Lemma min_by_filter_near (l : list X) (best : X) :
  near best = true ->
  min_by key best (filter near l) = min_by key best l.
Proof.
  revert best; induction l as [|x l IH]; intros best Hb; simpl.
  - reflexivity.
  - destruct (near x) eqn:Hx; simpl.
    + destruct (Qlt_bool (key x) (key best)); now apply IH.
    + rewrite (far_not_below x best Hx Hb). now apply IH.
Qed.

(** Starting beyond the tolerance, the scan ends on the least
    candidate, when there is one. *)
Lemma min_by_far_start (l : list X) (best : X) :
  near best = false ->
  min_by key best l =
  match filter near l with
  | [] => min_by key best l
  | c :: cs => min_by key c cs
  end.
Proof.
  revert best; induction l as [|x l IH]; intros best Hb; simpl.
  - reflexivity.
  - destruct (near x) eqn:Hx.
    + rewrite (near_below_far x best Hx Hb).
      symmetry. now apply min_by_filter_near.
    + destruct (Qlt_bool (key x) (key best)).
      * rewrite (IH x Hx). destruct (filter near l); reflexivity.
      * rewrite (IH best Hb). destruct (filter near l); reflexivity.
Qed.

(** [np.argmin] on the keys points at the element [min_by] returns. *)
Lemma argmin_from_min_by (all l : list X) (best : X) (bi i : nat) :
  nth_error all bi = Some best ->
  (forall k, nth_error all (i + k) = nth_error l k) ->
  nth_error all (argmin_from bi (key best) i (map key l))
  = Some (min_by key best l).
Proof.
  revert best bi i; induction l as [|x l IH]; intros best bi i Hb Hl; simpl.
  - assumption.
  - assert (Hx : nth_error all i = Some x)
      by (rewrite <- (Nat.add_0_r i); apply (Hl 0%nat)).
    assert (Hl' : forall k, nth_error all (S i + k) = nth_error l k)
      by (intros k; replace (S i + k)%nat with (i + S k)%nat by lia;
          exact (Hl (S k))).
    destruct (Qlt_bool (key x) (key best)); now apply IH.
Qed.

Lemma argmin_min_by (x : X) (l : list X) :
  nth_error (x :: l) (argmin (map key (x :: l)))
  = Some (min_by key x l).
Proof.
  simpl map. unfold argmin.
  apply argmin_from_min_by; [reflexivity | intros k; reflexivity].
Qed.

Lemma existsb_near_filter (l : list X) :
  existsb (fun b => b) (map near l) = false -> filter near l = [].
Proof.
  induction l as [|x l IH]; simpl; [reflexivity|].
  destruct (near x); simpl; [discriminate | exact IH].
Qed.

Lemma filter_near_existsb (l : list X) :
  existsb (fun b => b) (map near l) = true -> filter near l <> [].
Proof.
  induction l as [|x l IH]; simpl; [discriminate|].
  destruct (near x); simpl; [discriminate | exact IH].
Qed.

(** The element the source selects and the element the rule selects. *)
Lemma first_min_is_candidate_min (x : X) (l : list X) :
  existsb (fun b => b) (map near (x :: l)) = true ->
  match filter near (x :: l) with
  | [] => False
  | c :: cs => min_by key x l = min_by key c cs /\ near (min_by key c cs) = true
  end.
Proof.
  intros Hex.
  assert (Hin : forall c cs, filter near (x :: l) = c :: cs ->
                             near (min_by key c cs) = true).
  { intros c cs E. pose proof (min_by_In cs c) as H. rewrite <- E in H.
    apply filter_In in H. apply H. }
  pose proof (filter_near_existsb _ Hex) as Hne.
  destruct (filter near (x :: l)) as [|c cs] eqn:E; [congruence|].
  split; [|now apply Hin].
  simpl in E. destruct (near x) eqn:Hx.
  - injection E as <- <-. symmetry. now apply min_by_filter_near.
  - rewrite (min_by_far_start l x Hx), E. reflexivity.
Qed.

Lemma filter_near_global_min (x : X) (l : list X) (c : X) (cs : list X) :
  filter near (x :: l) = c :: cs ->
  min_by key c cs = min_by key x l /\ near (min_by key c cs) = true.
Proof.
  intros E.
  destruct (existsb (fun b => b) (map near (x :: l))) eqn:Hex.
  - pose proof (first_min_is_candidate_min x l Hex) as H.
    rewrite E in H. destruct H as [H1 H2]. split; [symmetry|]; assumption.
  - rewrite (existsb_near_filter _ Hex) in E. discriminate.
Qed.

Lemma Qlt_bool_iff (a b : Q) : Qlt_bool a b = true <-> (a < b)%Q.
Proof.
  unfold Qlt_bool. rewrite negb_true_iff. split.
  - intros H. apply Qnot_le_lt. intros Hle.
    apply Qle_bool_iff in Hle. congruence.
  - intros H. destruct (Qle_bool b a) eqn:E; [|reflexivity].
    apply Qle_bool_iff in E. exfalso. now apply (Qlt_not_le a b).
Qed.

Lemma Qlt_bool_false (a b : Q) : Qlt_bool a b = false -> (b <= a)%Q.
Proof.
  unfold Qlt_bool. rewrite negb_false_iff. apply Qle_bool_iff.
Qed.

(** [min_by] returns the first element of least key: the keys before it
    are strictly greater, the keys after it are not smaller. *)
Lemma min_by_first_min (l : list X) (best : X) :
  exists pre post,
    best :: l = pre ++ min_by key best l :: post
    /\ (forall y, In y pre -> (key (min_by key best l) < key y)%Q)
    /\ (forall y, In y post -> (key (min_by key best l) <= key y)%Q).
Proof.
  revert best; induction l as [|x l IH]; intros best; simpl.
  - exists [], []. repeat split; intros y [].
  - destruct (Qlt_bool (key x) (key best)) eqn:Hlt.
    + apply Qlt_bool_iff in Hlt.
      destruct (IH x) as (pre & post & E & Hpre & Hpost).
      exists (best :: pre), post. split; [simpl; now rewrite <- E|].
      split; [|assumption].
      assert (Hx : (key (min_by key x l) <= key x)%Q).
      { destruct pre as [|z pre]; simpl in E; injection E as E1 E2.
        - rewrite <- E1. apply Qle_refl.
        - apply Qlt_le_weak, Hpre. left. now symmetry. }
      intros y [<-|Hy]; [|now apply Hpre].
      now apply Qle_lt_trans with (key x).
    + apply Qlt_bool_false in Hlt.
      destruct (IH best) as (pre & post & E & Hpre & Hpost).
      destruct pre as [|z pre]; simpl in E; injection E as E1 E2.
      * exists [], (x :: post). split; [simpl; now rewrite <- E1, E2|].
        split; [intros y []|].
        intros y [<-|Hy]; [now rewrite <- E1 | now apply Hpost].
      * exists (z :: x :: pre), post. subst z.
        split; [simpl; do 2 f_equal; exact E2|].
        split; [|assumption].
        intros y [<-|[<-|Hy]].
        -- apply Hpre. now left.
        -- apply Qlt_le_trans with (key best); [apply Hpre; now left | assumption].
        -- apply Hpre. now right.
Qed.

End MatcherFacts.

Section Matcher.

Context {image : Type}.
Variable env : Env image.
Variable cfg : Config.

Let tol : Q := FACE_RECOGNITION_TOLERANCE cfg.

Lemma face_distance_pairs (known : list (string * encoding)) (face : encoding) :
  face_distance env (map snd known) face = map (distance_to env face) known.
Proof. unfold face_distance. rewrite map_map. reflexivity. Qed.

Lemma compare_faces_pairs (known : list (string * encoding)) (face : encoding) :
  compare_faces env (map snd known) face tol
  = map (fun p => Qle_bool (distance_to env face p) tol) known.
Proof.
  unfold compare_faces. rewrite face_distance_pairs, map_map. reflexivity.
Qed.

(** What [find_match] answers in terms of the rule's selection. *)
Lemma find_match_selected (known : list (string * encoding)) (face : encoding) :
  find_match env cfg (map snd known) (map fst known) face
  = Ok (match spec_candidates env tol known face with
        | [] => None
        | c :: cs =>
            let b := min_by (distance_to env face) c cs in
            Some (fst b, (1 - distance_to env face b)%Q)
        end).
Proof.
  destruct known as [|x l]; [reflexivity|].
  unfold find_match, spec_candidates.
  fold tol. rewrite compare_faces_pairs, face_distance_pairs.
  replace (0 <? List.length (map snd (x :: l)))%nat with true by reflexivity.
  set (key := distance_to env face).
  set (near := fun p => Qle_bool (key p) tol).
  destruct (existsb (fun b => b) (map near (x :: l))) eqn:Hex.
  - pose proof (first_min_is_candidate_min key tol x l Hex) as H.
    change (match filter near (x :: l) with
            | [] => False
            | c :: cs => min_by key x l = min_by key c cs
                         /\ near (min_by key c cs) = true
            end) in H.
    destruct (filter near (x :: l)) as [|c cs]; [contradiction|].
    destruct H as [Hsame Hnear]. cbv zeta. rewrite <- Hsame in *.
    pose proof (argmin_min_by key x l) as Hidx.
    rewrite (map_nth_error near _ _ Hidx), Hnear.
    rewrite (map_nth_error fst _ _ Hidx), (map_nth_error key _ _ Hidx).
    reflexivity.
  - pose proof (existsb_near_filter key tol _ Hex) as E.
    change (filter near (x :: l) = []) in E. rewrite E. reflexivity.
Qed.

(** When the source selects a person, that person is the first of the
    list whose distance is least, and it is within the tolerance. *)
Lemma find_match_some_inv (known : list (string * encoding))
  (face : encoding) (person_id : string) (confidence : Q) :
  find_match env cfg (map snd known) (map fst known) face
  = Ok (Some (person_id, confidence)) ->
  exists pre b post,
    known = pre ++ b :: post
    /\ person_id = fst b
    /\ confidence = (1 - distance_to env face b)%Q
    /\ (distance_to env face b <= tol)%Q
    /\ (forall y, In y pre ->
          (distance_to env face b < distance_to env face y)%Q)
    /\ (forall y, In y post ->
          (distance_to env face b <= distance_to env face y)%Q).
Proof.
  rewrite find_match_selected. intros H.
  destruct (spec_candidates env tol known face) as [|c cs] eqn:E;
    [discriminate|].
  destruct known as [|x l]; [discriminate|].
  unfold spec_candidates in E.
  destruct (filter_near_global_min (distance_to env face) tol x l c cs E)
    as [Hsame Hnear].
  cbv zeta in H. rewrite Hsame in H, Hnear. injection H as <- <-.
  destruct (min_by_first_min (distance_to env face) l x)
    as (pre & post & Hd & Hpre & Hpost).
  exists pre, (min_by (distance_to env face) x l), post.
  repeat split; try assumption.
  now apply Qle_bool_iff.
Qed.

(** A candidate within the tolerance makes the source select a
    person. *)
Lemma find_match_some (known : list (string * encoding)) (face : encoding)
  (q : string * encoding) :
  In q known -> (distance_to env face q <= tol)%Q ->
  exists person_id confidence,
    find_match env cfg (map snd known) (map fst known) face
    = Ok (Some (person_id, confidence)).
Proof.
  intros Hin Hq. rewrite find_match_selected.
  assert (Hc : In q (spec_candidates env tol known face)).
  { apply filter_In. split; [assumption | now apply Qle_bool_iff]. }
  destruct (spec_candidates env tol known face) as [|c cs]; [destruct Hc|].
  eexists _, _. reflexivity.
Qed.

(** No encoding within the tolerance: [person_id] stays [None],
    whatever the list of identifiers is. *)
Lemma find_match_none (known_encodings : list encoding)
  (known_person_ids : list string) (face : encoding) :
  Forall (fun k => (tol < norm env k face)%Q) known_encodings ->
  find_match env cfg known_encodings known_person_ids face = Ok None.
Proof.
  intros Hfar. unfold find_match.
  destruct (0 <? List.length known_encodings)%nat; [|reflexivity].
  assert (E : existsb (fun b => b)
                (compare_faces env known_encodings face
                   (FACE_RECOGNITION_TOLERANCE cfg)) = false).
  { unfold compare_faces, face_distance. rewrite map_map.
    induction Hfar as [|k ks Hk _ IH]; [reflexivity|]. simpl.
    rewrite IH, orb_false_r.
    destruct (Qle_bool (norm env k face) (FACE_RECOGNITION_TOLERANCE cfg))
      eqn:Hle; [|reflexivity].
    apply Qle_bool_iff in Hle. exfalso.
    apply (Qlt_not_le _ _ Hk). exact Hle. }
  rewrite E. reflexivity.
Qed.

End Matcher.

(** C1. For every query encoding and every list of known persons, the
    matching procedure of the source (boolean matches at the tolerance; if
    one is true, the index of the globally least distance, accepted only if
    its own flag is true) decides as the specified rule does: the person of
    least distance among those within the tolerance, a new person when none
    is within it.  The confidence the source attaches is one minus the
    distance of that person. *)
Theorem find_match_refines_spec_match
  {image : Type} (env : Env image) (cfg : Config)
  (known : list (string * encoding)) (face : encoding) :
  find_match env cfg (map snd known) (map fst known) face
  = Ok (option_map (fun r => (fst r, (1 - snd r)%Q))
          (spec_match env (FACE_RECOGNITION_TOLERANCE cfg) known face)).
Proof.
  rewrite find_match_selected. unfold spec_match.
  destruct (spec_candidates env (FACE_RECOGNITION_TOLERANCE cfg) known face);
    reflexivity.
Qed.


(** C4 (as the source has it). On a tie the matcher selects the candidate
    that comes first in the list of known persons: the selected person is
    within the tolerance, every person before it in the list is strictly
    farther from the face, and no person after it is nearer. *)
Theorem find_match_selects_first_minimum
  {image : Type} (env : Env image) (cfg : Config)
  (known : list (string * encoding)) (face : encoding)
  (person_id : string) (confidence : Q) :
  find_match env cfg (map snd known) (map fst known) face
  = Ok (Some (person_id, confidence)) ->
  exists pre e post,
    known = pre ++ (person_id, e) :: post
    /\ confidence = (1 - norm env e face)%Q
    /\ (norm env e face <= FACE_RECOGNITION_TOLERANCE cfg)%Q
    /\ (forall y, In y pre -> (norm env e face < norm env (snd y) face)%Q)
    /\ (forall y, In y post -> (norm env e face <= norm env (snd y) face)%Q).
Proof.
  intros H.
  destruct (find_match_some_inv env cfg known face person_id confidence H)
    as (pre & [pid e] & post & Hk & Hp & Hc & Ht & Hpre & Hpost).
  simpl in Hp. subst pid.
  exists pre, e, post. repeat split; assumption.
Qed.

Lemma find_match_selects_first_minimum_witness :
  let known := [("9f1c2b7e-3d4a-4c5b-8e6f-0a1b2c3d4e5f", [0%Q]);
                ("1a2b3c4d-5e6f-4a7b-8c9d-0e1f2a3b4c5d", [0%Q])] in
  let env := Sample.calm [] in
  find_match env (Sample.cfg (6#10)) (map snd known) (map fst known) [0%Q]
  = Ok (Some ("9f1c2b7e-3d4a-4c5b-8e6f-0a1b2c3d4e5f",
              (1 - Sample.norm1 [0%Q] [0%Q])%Q))
  /\ exists pre e post,
       known = pre ++ ("9f1c2b7e-3d4a-4c5b-8e6f-0a1b2c3d4e5f", e) :: post
       /\ (1 - Sample.norm1 [0%Q] [0%Q])%Q = (1 - norm env e [0%Q])%Q
       /\ (norm env e [0%Q] <= FACE_RECOGNITION_TOLERANCE (Sample.cfg (6#10)))%Q
       /\ (forall y, In y pre -> (norm env e [0%Q] < norm env (snd y) [0%Q])%Q)
       /\ (forall y, In y post -> (norm env e [0%Q] <= norm env (snd y) [0%Q])%Q).
Proof.
  intros known env. split; [reflexivity|].
  apply (find_match_selects_first_minimum env (Sample.cfg (6#10)) known [0%Q]).
  reflexivity.
Defined.

(** C4 (as worded) fails: two persons hold the same reference encoding,
    so both are at distance 0 from the face; the source selects the one
    listed first, whose identifier is the greater of the two. *)
Lemma tie_not_broken_by_lowest_identifier :
  ~ lowest_identifier_on_ties (Sample.calm []) (Sample.cfg (6#10)).
Proof.
  intros H.
  specialize (H [("9f1c2b7e-3d4a-4c5b-8e6f-0a1b2c3d4e5f", [0%Q]);
                 ("1a2b3c4d-5e6f-4a7b-8c9d-0e1f2a3b4c5d", [0%Q])]
                [0%Q] "9f1c2b7e-3d4a-4c5b-8e6f-0a1b2c3d4e5f"
                (1 - Sample.norm1 [0%Q] [0%Q])%Q eq_refl
                ("1a2b3c4d-5e6f-4a7b-8c9d-0e1f2a3b4c5d", [0%Q])).
  assert (E : String.leb "9f1c2b7e-3d4a-4c5b-8e6f-0a1b2c3d4e5f"
                "1a2b3c4d-5e6f-4a7b-8c9d-0e1f2a3b4c5d" = false) by reflexivity.
  simpl fst in H. rewrite E in H.
  assert (F : false = true); [apply H | discriminate].
  - right. now left.
  - vm_compute. discriminate.
  - intros y [<-|[<-|[]]]; vm_compute; discriminate.
Qed.

(** ** One face *)

Section OneFace.

Context {image : Type}.
Variable env : Env image.
Variable cfg : Config.
Variable photo_id : string.
Variable image_array : image.

(** The face matched nobody and neither PIL nor the upload raised. *)
Lemma process_face_new (loc : Locals) (face_encoding : encoding)
  (face_location : box) (st : Session) (jpeg : string) :
  find_match env cfg (known_encodings loc) (known_person_ids loc)
    face_encoding = Ok None ->
  pil_thumbnail env (crop env image_array face_location) 200 = Ok jpeg ->
  (forall msg,
      s3_put_object env
        ("thumbnails/" ++ uuid4 env (uuid_calls st) ++ ".jpg")%string jpeg
      <> S3OtherError msg) ->
  let n := uuid_calls st in
  let db := session st in
  let person_id := uuid4 env (S n) in
  process_face env cfg photo_id image_array loc
    (face_encoding, face_location) st
  = (Ok (mkLocals (known_encodings loc ++ [face_encoding])
           (known_person_ids loc ++ [person_id])
           (S (faces_processed loc))),
     mkSession (committed st)
       (mkDB (photos db)
          (persons db ++
           [Person.mk person_id
              ("人物 " ++ nat_to_string (List.length (persons db) + 1))%string
              face_encoding
              (Some ("thumbnails/" ++ uuid4 env n ++ ".jpg")%string) 1])
          (face_matches db ++
           [FaceMatch.mk (uuid4 env (S (S n))) photo_id person_id
              face_location 1 face_encoding])
          (processing_queue db))
       (S (S (S n)))).
Proof.
  intros Hfind Hthumb Hput n db person_id.
  unfold process_face, bind, lift, create_thumbnail, fresh_uuid,
    upload_to_s3.
  rewrite Hfind. cbv beta iota. unfold ret at 1. cbv beta iota.
  unfold lift. rewrite Hthumb. cbv beta iota.
  cbn [uuid_calls session committed].
  fold n.
  destruct (s3_put_object env ("thumbnails/" ++ uuid4 env n ++ ".jpg")%string
              jpeg) as [u| |msg] eqn:E.
  - reflexivity.
  - reflexivity.
  - exfalso. apply (Hput msg). exact E.
Qed.

(** The face matched the person [person_id], whose row is [person]. *)
Lemma process_face_matched (loc : Locals) (face_encoding : encoding)
  (face_location : box) (st : Session) (person_id : string)
  (confidence : Q) (person : Person.t) :
  find_match env cfg (known_encodings loc) (known_person_ids loc)
    face_encoding = Ok (Some (person_id, confidence)) ->
  find (fun p => Person.id p =? person_id)%string (persons (session st))
  = Some person ->
  let db := session st in
  process_face env cfg photo_id image_array loc
    (face_encoding, face_location) st
  = (Ok (mkLocals (known_encodings loc) (known_person_ids loc)
           (S (faces_processed loc))),
     mkSession (committed st)
       (mkDB (photos db)
          (update_first (fun p => Person.id p =? person_id)%string
             (Person.set_photo_count (Person.photo_count person + 1))
             (persons db))
          (face_matches db ++
           [FaceMatch.mk (uuid4 env (uuid_calls st)) photo_id person_id
              face_location confidence face_encoding])
          (processing_queue db))
       (S (uuid_calls st))).
Proof.
  intros Hfind Hget db.
  unfold process_face, bind, lift. rewrite Hfind. simpl.
  unfold Person_query_get. simpl. rewrite Hget. reflexivity.
Qed.

(** An exception in the body of the loop leaves the rows of the session
    (and the committed ones) as they were when the face was reached. *)
Lemma process_face_raise (loc : Locals) (face : encoding * box)
  (st st' : Session) (e : string) :
  process_face env cfg photo_id image_array loc face st = (Raise e, st') ->
  session st' = session st /\ committed st' = committed st.
Proof.
  destruct face as [face_encoding face_location].
  unfold process_face, bind, lift.
  destruct (find_match env cfg (known_encodings loc) (known_person_ids loc)
              face_encoding) as [[[pid c]|]|msg]; simpl.
  - unfold Person_query_get.
    destruct (find (fun p => Person.id p =? pid)%string
                (persons (session st))); simpl;
      intros H; inversion H; subst; split; reflexivity.
  - unfold create_thumbnail, lift.
    destruct (pil_thumbnail env (crop env image_array face_location) 200)
      as [jpeg|msg]; simpl.
    + unfold upload_to_s3.
      destruct (s3_put_object env _ jpeg); simpl;
        intros H; inversion H; subst; split; reflexivity.
    + intros H; inversion H; subst; split; reflexivity.
  - intros H; inversion H; subst; split; reflexivity.
Qed.

End OneFace.

Lemma find_update_first {A} (p : A -> bool) (f : A -> A) (l : list A) (x : A) :
  find p l = Some x -> p (f x) = true ->
  find p (update_first p f l) = Some (f x).
Proof.
  induction l as [|y l IH]; simpl; [discriminate|].
  destruct (p y) eqn:Hy; intros H Hf.
  - injection H as ->. simpl. now rewrite Hf.
  - simpl. rewrite Hy. now apply IH.
Qed.

(** C3. A face farther than the tolerance from every known reference
    encoding (in particular with no known person at all), whose thumbnail
    is made and uploaded without an exception, creates exactly one row of
    persons, holding the encoding of the face itself and photo_count 1, and
    its FaceMatch row refers to that person with confidence 1.0. *)
Theorem unmatched_face_creates_person
  {image : Type} (env : Env image) (cfg : Config) (photo_id : string)
  (image_array : image) (loc : Locals) (face_encoding : encoding)
  (face_location : box) (st : Session) (jpeg : string) :
  Forall (fun k => (FACE_RECOGNITION_TOLERANCE cfg < norm env k face_encoding)%Q)
    (known_encodings loc) ->
  pil_thumbnail env (crop env image_array face_location) 200 = Ok jpeg ->
  (forall msg,
      s3_put_object env
        ("thumbnails/" ++ uuid4 env (uuid_calls st) ++ ".jpg")%string jpeg
      <> S3OtherError msg) ->
  exists loc' st' p m,
    process_face env cfg photo_id image_array loc
      (face_encoding, face_location) st = (Ok loc', st')
    /\ persons (session st') = persons (session st) ++ [p]
    /\ Person.face_encoding p = face_encoding
    /\ Person.photo_count p = 1%Z
    /\ face_matches (session st') = face_matches (session st) ++ [m]
    /\ FaceMatch.photo_id m = photo_id
    /\ FaceMatch.person_id m = Person.id p
    /\ FaceMatch.confidence m = 1%Q
    /\ FaceMatch.face_encoding m = face_encoding
    /\ known_encodings loc' = known_encodings loc ++ [face_encoding]
    /\ known_person_ids loc' = known_person_ids loc ++ [Person.id p].
Proof.
  intros Hfar Hthumb Hput.
  pose proof (process_face_new env cfg photo_id image_array loc face_encoding
                face_location st jpeg
                (find_match_none env cfg _ (known_person_ids loc) _ Hfar)
                Hthumb Hput) as H.
  cbv zeta in H.
  eexists _, _, _, _. split; [exact H|].
  cbn. repeat split; reflexivity.
Qed.

Lemma unmatched_face_creates_person_witness :
  let env := Sample.calm [Sample.face 0 (9#10)] in
  let cfg := Sample.cfg (6#10) in
  let loc := mkLocals [[0%Q]] ["p0"%string] 0 in
  let st := Sample.start (mkDB [Sample.photo1] [Sample.person "p0" 0 1] []
                            [Sample.entry1 processing]) in
  exists loc' st' p m,
    process_face env cfg "photo-1" [Sample.face 0 (9#10)] loc
      (Sample.face 0 (9#10)) st = (Ok loc', st')
    /\ persons (session st') = persons (session st) ++ [p]
    /\ Person.face_encoding p = [9#10]
    /\ Person.photo_count p = 1%Z
    /\ face_matches (session st') = face_matches (session st) ++ [m]
    /\ FaceMatch.photo_id m = "photo-1"%string
    /\ FaceMatch.person_id m = Person.id p
    /\ FaceMatch.confidence m = 1%Q
    /\ FaceMatch.face_encoding m = [9#10]
    /\ known_encodings loc' = known_encodings loc ++ [[9#10]]
    /\ known_person_ids loc' = known_person_ids loc ++ [Person.id p].
Proof.
  intros env cfg loc st.
  apply (unmatched_face_creates_person env cfg "photo-1"
           [Sample.face 0 (9#10)] loc [9#10] (snd (Sample.face 0 (9#10))) st
           "jpeg").
  - repeat constructor.
  - reflexivity.
  - intros msg; discriminate.
Defined.

(** C2 (as the source has it). A face whose least distance d to the known
    reference encodings is within the tolerance gets one FaceMatch row
    whose confidence is 1 - d (no clamping; it equals max(0, 1 - d)
    whenever d <= 1), and the person that row names, a known person at
    distance d, has its photo_count increased by exactly 1 while every
    other row of persons is untouched. *)
Theorem matched_face_confidence_and_count
  {image : Type} (env : Env image) (cfg : Config) (photo_id : string)
  (image_array : image) (known : list (string * encoding)) (n : nat)
  (face_encoding : encoding) (face_location : box) (st : Session) (d : Q) :
  In d (face_distance env (map snd known) face_encoding) ->
  Forall (fun x => (d <= x)%Q) (face_distance env (map snd known) face_encoding) ->
  (d <= FACE_RECOGNITION_TOLERANCE cfg)%Q ->
  (forall pid, In pid (map fst known) ->
     find (fun p => Person.id p =? pid)%string (persons (session st)) <> None) ->
  exists loc' st' person m e,
    process_face env cfg photo_id image_array
      (mkLocals (map snd known) (map fst known) n)
      (face_encoding, face_location) st = (Ok loc', st')
    /\ face_matches (session st') = face_matches (session st) ++ [m]
    /\ (FaceMatch.confidence m == 1 - d)%Q
    /\ ((d <= 1)%Q -> (FaceMatch.confidence m == Qmax 0 (1 - d))%Q)
    /\ In (FaceMatch.person_id m, e) known
    /\ (norm env e face_encoding == d)%Q
    /\ find (fun p => Person.id p =? FaceMatch.person_id m)%string
         (persons (session st)) = Some person
    /\ find (fun p => Person.id p =? FaceMatch.person_id m)%string
         (persons (session st'))
       = Some (Person.set_photo_count (Person.photo_count person + 1) person)
    /\ persons (session st')
       = update_first (fun p => Person.id p =? FaceMatch.person_id m)%string
           (Person.set_photo_count (Person.photo_count person + 1))
           (persons (session st)).
Proof.
  intros Hin Hmin Htol Hrows.
  rewrite face_distance_pairs in Hin, Hmin.
  apply in_map_iff in Hin. destruct Hin as (q & Hq & Hqin).
  assert (Hqtol : (distance_to env face_encoding q
                   <= FACE_RECOGNITION_TOLERANCE cfg)%Q) by now rewrite Hq.
  destruct (find_match_some env cfg known face_encoding q Hqin Hqtol)
    as (pid & conf & Hfind).
  destruct (find_match_some_inv env cfg known face_encoding pid conf Hfind)
    as (pre & [bid be] & post & Hk & Hp & Hc & Ht & Hpre & Hpost).
  simpl in Hp. subst pid.
  assert (Hb : In (bid, be) known)
    by (rewrite Hk; apply in_or_app; right; now left).
  assert (Hd : (distance_to env face_encoding (bid, be) == d)%Q).
  { apply Qle_antisym.
    - rewrite <- Hq. rewrite Hk in Hqin.
      apply in_app_or in Hqin. destruct Hqin as [H|[<-|H]].
      + apply Qlt_le_weak. now apply Hpre.
      + apply Qle_refl.
      + now apply Hpost.
    - rewrite Forall_forall in Hmin. apply Hmin.
      apply in_map_iff. now exists (bid, be). }
  assert (Hid : In bid (map fst known))
    by (apply in_map_iff; now exists (bid, be)).
  destruct (find (fun p => Person.id p =? bid)%string (persons (session st)))
    as [person|] eqn:Hget; [|exfalso; now apply (Hrows bid Hid)].
  pose proof (process_face_matched env cfg photo_id image_array
                (mkLocals (map snd known) (map fst known) n)
                face_encoding face_location st bid conf person Hfind Hget)
    as Hrun.
  cbv zeta in Hrun.
  eexists _, _, person, _, be. split; [exact Hrun|].
  cbn [session face_matches persons FaceMatch.confidence FaceMatch.person_id].
  assert (Hconf : (conf == 1 - d)%Q) by (rewrite Hc, Hd; reflexivity).
  repeat split.
  - exact Hconf.
  - intros H1. apply Qeq_trans with (1 - d)%Q; [exact Hconf|].
    symmetry. apply Q.max_r.
    apply (Qplus_le_l _ _ d). ring_simplify. exact H1.
  - exact Hb.
  - exact Hd.
  - exact Hget.
  - apply find_update_first; [exact Hget|].
    apply find_some in Hget. apply Hget.
Qed.

Lemma matched_face_confidence_and_count_witness :
  let env := Sample.calm [Sample.face 0 (1#10)] in
  let cfg := Sample.cfg (6#10) in
  let known := [("p0"%string, [0%Q])] in
  let st := Sample.start (mkDB [Sample.photo1] [Sample.person "p0" 0 1] []
                            [Sample.entry1 processing]) in
  let d := Sample.norm1 [0%Q] [1#10] in
  (In d (face_distance env (map snd known) [1#10])
   /\ (d <= FACE_RECOGNITION_TOLERANCE cfg)%Q)
  /\ exists loc' st' person m e,
      process_face env cfg "photo-1" [Sample.face 0 (1#10)]
        (mkLocals (map snd known) (map fst known) 0)
        (Sample.face 0 (1#10)) st = (Ok loc', st')
      /\ face_matches (session st') = face_matches (session st) ++ [m]
      /\ (FaceMatch.confidence m == 1 - d)%Q
      /\ ((d <= 1)%Q -> (FaceMatch.confidence m == Qmax 0 (1 - d))%Q)
      /\ In (FaceMatch.person_id m, e) known
      /\ (norm env e [1#10] == d)%Q
      /\ find (fun p => Person.id p =? FaceMatch.person_id m)%string
           (persons (session st)) = Some person
      /\ find (fun p => Person.id p =? FaceMatch.person_id m)%string
           (persons (session st'))
         = Some (Person.set_photo_count (Person.photo_count person + 1) person)
      /\ persons (session st')
         = update_first (fun p => Person.id p =? FaceMatch.person_id m)%string
             (Person.set_photo_count (Person.photo_count person + 1))
             (persons (session st)).
Proof.
  intros env cfg known st d.
  assert (Hin : In d (face_distance env (map snd known) [1#10]))
    by (left; reflexivity).
  assert (Htol : (d <= FACE_RECOGNITION_TOLERANCE cfg)%Q)
    by (vm_compute; discriminate).
  split; [split; assumption|].
  apply (matched_face_confidence_and_count env cfg "photo-1"
           [Sample.face 0 (1#10)] known 0 [1#10]
           (snd (Sample.face 0 (1#10))) st d Hin).
  - constructor; [apply Qle_refl | constructor].
  - exact Htol.
  - intros pid [<-|[]]. vm_compute. discriminate.
Defined.

(** C2 (as worded) fails when the configured tolerance exceeds 1: with
    tolerance 1.5, a face at distance 1.2 from the only known person is
    matched, and the confidence stored is 1 - 1.2 = -0.2, not
    max(0, 1 - 1.2) = 0. *)
Lemma confidence_is_not_clamped :
  let env := Sample.calm [Sample.face 0 (6#5)] in
  let cfg := Sample.cfg (3#2) in
  let st := Sample.start (mkDB [Sample.photo1] [Sample.person "p0" 0 1] []
                            [Sample.entry1 pending]) in
  let d := 6#5 in
  face_distance env [[0%Q]] [6#5] = [d]
  /\ (d <= FACE_RECOGNITION_TOLERANCE cfg)%Q
  /\ exists m,
      face_matches (committed (snd (process_single_photo env cfg "photo-1" st)))
      = [m]
      /\ FaceMatch.person_id m = "p0"%string
      /\ (FaceMatch.confidence m == -1#5)%Q
      /\ ~ (FaceMatch.confidence m == Qmax 0 (1 - d))%Q.
Proof.
  cbv zeta. split; [reflexivity|]. split; [vm_compute; discriminate|].
  eexists. split; [vm_compute; reflexivity|].
  split; [reflexivity|]. split; [reflexivity|].
  vm_compute. discriminate.
Qed.

(** ** One photo *)

Lemma map_update_first {A B} (g : A -> B) (p : A -> bool) (f : A -> A)
  (l : list A) :
  (forall x, g (f x) = g x) -> map g (update_first p f l) = map g l.
Proof.
  intros Hg. induction l as [|x l IH]; simpl; [reflexivity|].
  destruct (p x); simpl; [now rewrite Hg | now rewrite IH].
Qed.

Lemma update_first_absent {A} (p : A -> bool) (f : A -> A) (l : list A) :
  find p l = None -> update_first p f l = l.
Proof.
  induction l as [|x l IH]; simpl; [reflexivity|].
  destruct (p x); [discriminate | intros H; now rewrite IH].
Qed.

Section OnePhoto.

Context {image : Type}.
Variable env : Env image.
Variable cfg : Config.
Variable photo_id : string.
Variable image_array : image.

(** The two ways the body of the loop ends normally. *)
Lemma process_face_ok_inv (loc loc' : Locals) (face_encoding : encoding)
  (face_location : box) (st st' : Session) :
  process_face env cfg photo_id image_array loc
    (face_encoding, face_location) st = (Ok loc', st') ->
  (exists person_id confidence person,
      find_match env cfg (known_encodings loc) (known_person_ids loc)
        face_encoding = Ok (Some (person_id, confidence))
      /\ find (fun p => Person.id p =? person_id)%string
           (persons (session st)) = Some person)
  \/ (exists jpeg,
      find_match env cfg (known_encodings loc) (known_person_ids loc)
        face_encoding = Ok None
      /\ pil_thumbnail env (crop env image_array face_location) 200 = Ok jpeg
      /\ forall msg,
          s3_put_object env
            ("thumbnails/" ++ uuid4 env (uuid_calls st) ++ ".jpg")%string jpeg
          <> S3OtherError msg).
Proof.
  unfold process_face, bind, lift.
  destruct (find_match env cfg (known_encodings loc) (known_person_ids loc)
              face_encoding) as [[[pid c]|]|msg]; cbv beta iota.
  - unfold Person_query_get. cbv beta iota.
    destruct (find (fun p => Person.id p =? pid)%string
                (persons (session st))) as [person|] eqn:Hget.
    + intros _. left. now exists pid, c, person.
    + unfold raise. discriminate.
  - unfold ret at 1. cbv beta iota.
    unfold create_thumbnail, lift.
    destruct (pil_thumbnail env (crop env image_array face_location) 200)
      as [jpeg|msg] eqn:Hthumb; cbv beta iota; [|discriminate].
    unfold fresh_uuid at 1. cbv beta iota.
    unfold upload_to_s3. cbn [uuid_calls].
    destruct (s3_put_object env
                ("thumbnails/" ++ uuid4 env (uuid_calls st) ++ ".jpg")%string
                jpeg) eqn:Hput.
    + intros _. right. exists jpeg.
      split; [reflexivity|]. split; [reflexivity|].
      intros msg Hmsg. congruence.
    + intros _. right. exists jpeg.
      split; [reflexivity|]. split; [reflexivity|].
      intros msg Hmsg. congruence.
    + unfold raise. discriminate.
  - discriminate.
Qed.

(** One more face: one more FaceMatch row, for that face; the rows of
    persons keep their identities, with at most one row added, and the
    working lists follow the table. *)
Lemma process_face_step (loc loc' : Locals) (face : encoding * box)
  (st st' : Session) :
  working_set loc (persons (session st)) ->
  process_face env cfg photo_id image_array loc face st = (Ok loc', st') ->
  exists P' N m,
    persons (session st') = P' ++ N
    /\ same_identities (persons (session st)) P'
    /\ Forall (fun p => Person.face_encoding p = fst face
                        /\ Person.photo_count p = 1%Z) N
    /\ working_set loc' (persons (session st'))
    /\ face_matches (session st') = face_matches (session st) ++ [m]
    /\ detected m = face
    /\ FaceMatch.photo_id m = photo_id
    /\ faces_processed loc' = S (faces_processed loc)
    /\ photos (session st') = photos (session st)
    /\ processing_queue (session st') = processing_queue (session st)
    /\ committed st' = committed st.
Proof.
  destruct face as [face_encoding face_location].
  intros [Hids Hencs] Hrun.
  destruct (process_face_ok_inv _ _ _ _ _ _ Hrun)
    as [(pid & c & person & Hfind & Hget) | (jpeg & Hfind & Hthumb & Hput)].
  - rewrite (process_face_matched env cfg photo_id image_array loc
               face_encoding face_location st pid c person Hfind Hget)
      in Hrun.
    injection Hrun as <- <-. cbn.
    eexists _, [], _. rewrite app_nil_r.
    split; [reflexivity|].
    assert (Hsame : same_identities (persons (session st))
              (update_first (fun p => Person.id p =? pid)%string
                 (Person.set_photo_count (Person.photo_count person + 1))
                 (persons (session st)))).
    { split; apply map_update_first; intros x; reflexivity. }
    split; [exact Hsame|]. split; [constructor|].
    split.
    { destruct Hsame as [H1 H2]. split; cbn; congruence. }
    repeat split; reflexivity.
  - rewrite (process_face_new env cfg photo_id image_array loc
               face_encoding face_location st jpeg Hfind Hthumb Hput)
      in Hrun.
    injection Hrun as <- <-. cbn.
    eexists (persons (session st)), [_], _.
    split; [reflexivity|].
    split; [split; reflexivity|].
    split; [constructor; [split; reflexivity | constructor]|].
    split.
    { split; cbn; rewrite map_app; cbn; congruence. }
    repeat split; reflexivity.
Qed.

End OnePhoto.

Lemma map_app_split {A B} (g : A -> B) (a b : list B) (l : list A) :
  map g l = a ++ b ->
  map g (firstn (List.length a) l) = a /\ map g (skipn (List.length a) l) = b.
Proof.
  revert l; induction a as [|x a IH]; intros l H; simpl in *.
  - split; [reflexivity | assumption].
  - destruct l as [|y l]; [discriminate|]. simpl in H.
    injection H as Hx Hl. destruct (IH l Hl) as [H1 H2].
    simpl. split; [now rewrite Hx, H1 | assumption].
Qed.

Section Faces.

Context {image : Type}.
Variable env : Env image.
Variable cfg : Config.
Variable photo_id : string.
Variable image_array : image.

Let loop := process_faces env cfg photo_id image_array.

(** The loop handles the faces one after the other, in the order of the
    list. *)
Lemma process_faces_app (fs1 fs2 : list (encoding * box)) (loc : Locals)
  (st : Session) :
  loop loc (fs1 ++ fs2) st
  = (loc1 <- loop loc fs1 ;; loop loc1 fs2) st.
Proof.
  revert loc st; induction fs1 as [|f fs1 IH]; intros loc st.
  - reflexivity.
  - unfold loop in *. simpl. unfold bind in *.
    destruct (process_face env cfg photo_id image_array loc f st)
      as [[loc'|e] st']; [apply IH | reflexivity].
Qed.

(** After any number of faces: one FaceMatch row per face, in the order
    of detection; the rows of persons present at the start keep their
    identities, the rows added hold encodings of faces of this photo, and
    the working lists are the identifiers and encodings of the table as
    it now is. *)
Lemma process_faces_steps (fs : list (encoding * box)) (loc loc1 : Locals)
  (st s1 : Session) :
  working_set loc (persons (session st)) ->
  loop loc fs st = (Ok loc1, s1) ->
  exists P' N rows,
    persons (session s1) = P' ++ N
    /\ same_identities (persons (session st)) P'
    /\ Forall (fun p => In (Person.face_encoding p) (map fst fs)) N
    /\ working_set loc1 (persons (session s1))
    /\ face_matches (session s1) = face_matches (session st) ++ rows
    /\ map detected rows = fs
    /\ Forall (fun m => FaceMatch.photo_id m = photo_id) rows
    /\ faces_processed loc1 = (faces_processed loc + List.length fs)%nat
    /\ photos (session s1) = photos (session st)
    /\ processing_queue (session s1) = processing_queue (session st)
    /\ committed s1 = committed st.
Proof.
  revert loc st; induction fs as [|f fs IH]; intros loc st Hws Hrun.
  - unfold loop in Hrun. simpl in Hrun. injection Hrun as <- <-.
    exists (persons (session st)), [], [].
    rewrite !app_nil_r, Nat.add_0_r.
    split; [reflexivity|]. split; [split; reflexivity|].
    split; [constructor|]. split; [assumption|].
    split; [reflexivity|]. split; [reflexivity|].
    split; [constructor|]. repeat split; reflexivity.
  - unfold loop in Hrun. simpl in Hrun. unfold bind in Hrun.
    destruct (process_face env cfg photo_id image_array loc f st)
      as [[loc'|e] st'] eqn:Hstep; [|discriminate].
    destruct (process_face_step env cfg photo_id image_array _ _ _ _ _
                Hws Hstep)
      as (P1 & N1 & m & HP1 & [Hid1 Henc1] & HN1 & Hws1 & Hfm1 & Hdet1
          & Hpid1 & Hcnt1 & Hph1 & Hq1 & Hc1).
    destruct (IH loc' st' Hws1 Hrun)
      as (P2 & N2 & rows & HP2 & [Hid2 Henc2] & HN2 & Hws2 & Hfm2 & Hdet2
          & Hpid2 & Hcnt2 & Hph2 & Hq2 & Hc2).
    rewrite HP1, map_app in Hid2, Henc2.
    destruct (map_app_split _ _ _ _ Hid2) as [Hid2a Hid2b].
    destruct (map_app_split _ _ _ _ Henc2) as [Henc2a Henc2b].
    rewrite length_map in Hid2a, Hid2b, Henc2a, Henc2b.
    exists (firstn (List.length P1) P2),
           (skipn (List.length P1) P2 ++ N2), (m :: rows).
    split; [now rewrite app_assoc, firstn_skipn|].
    split; [split; congruence|].
    split.
    { apply Forall_app. split.
      - apply Forall_forall. intros p Hp.
        assert (Hin : In (Person.face_encoding p)
                        (map Person.face_encoding N1))
          by (rewrite <- Henc2b; now apply in_map).
        apply in_map_iff in Hin. destruct Hin as (p1 & Hp1 & Hin).
        rewrite Forall_forall in HN1. destruct (HN1 p1 Hin) as [He _].
        simpl. left. congruence.
      - apply Forall_impl with (2 := HN2). intros p Hp. now right. }
    split; [assumption|].
    split; [rewrite Hfm2, Hfm1, <- app_assoc; reflexivity|].
    split; [simpl; congruence|].
    split; [now constructor|].
    split; [simpl; lia|].
    repeat split; congruence.
Qed.


End Faces.

(** ** The whole of [process_single_photo] *)

Lemma update_first_twice {A} (p : A -> bool) (f g : A -> A) (l : list A) :
  (forall x, p (f x) = p x) ->
  update_first p g (update_first p f l) = update_first p (fun x => g (f x)) l.
Proof.
  intros Hp. induction l as [|x l IH]; simpl; [reflexivity|].
  destruct (p x) eqn:Hx; simpl.
  - now rewrite Hp, Hx.
  - now rewrite Hx, IH.
Qed.

Section WholePhoto.

Context {image : Type}.
Variable env : Env image.
Variable cfg : Config.
Variable photo_id : string.

Let mine (q : ProcessingQueue.t) : bool :=
  (ProcessingQueue.photo_id q =? photo_id)%string.

Lemma lease_state (st : Session) :
  lease photo_id st
  = (Ok tt,
     let db := mkDB (photos (session st)) (persons (session st))
                 (face_matches (session st))
                 (update_first mine (ProcessingQueue.set_status processing)
                    (processing_queue (session st))) in
     mkSession db db (uuid_calls st)).
Proof. reflexivity. Qed.

Lemma on_failure_state (e : string) (st : Session) :
  on_failure photo_id e st
  = (Ok tt,
     let db := mkDB (photos (session st)) (persons (session st))
                 (face_matches (session st))
                 (update_first mine
                    (fun q => ProcessingQueue.set_error_message (Some e)
                                (ProcessingQueue.set_status failed q))
                    (processing_queue (session st))) in
     mkSession db db (uuid_calls st)).
Proof.
  unfold on_failure, bind, update_queue_item, modify_session, commit.
  cbn [session committed uuid_calls processing_queue photos persons
       face_matches].
  rewrite update_first_twice by reflexivity. reflexivity.
Qed.

(** The entry found by [first()] after it was assigned to through [f],
    which keeps its photo. *)
Lemma queue_item_after (f : ProcessingQueue.t -> ProcessingQueue.t)
  (l : list ProcessingQueue.t) (q : ProcessingQueue.t) :
  (forall x, ProcessingQueue.photo_id (f x) = ProcessingQueue.photo_id x) ->
  find mine l = Some q ->
  find mine (update_first mine f l) = Some (f q).
Proof.
  intros Hf Hq. apply find_update_first; [assumption|].
  unfold mine. rewrite Hf. apply find_some in Hq. apply Hq.
Qed.

(** An error before the loop: nothing was written since the lease. *)
Lemma process_body_fails_early (st1 : Session) (db : DB) (e : string) :
  photos (session st1) = photos db ->
  fails_before_faces env photo_id db e ->
  process_body env cfg photo_id st1 = (Raise e, st1).
Proof.
  intros Hph Hfail.
  unfold process_body, bind, Photo_query_get, download_image_from_s3, lift.
  rewrite Hph.
  destruct Hfail as [H0 | photo H0 H1 | photo msg H0 H1
                    | photo img msg H0 H1 H2
                    | photo img locations msg H0 H1 H2 H3];
    rewrite H0; cbv beta iota; try rewrite H1; try reflexivity;
    unfold ret at 1; cbv beta iota; rewrite H2; try reflexivity.
  cbv beta iota. rewrite H3. reflexivity.
Qed.

Lemma process_single_photo_raise (st s2 : Session) (q : ProcessingQueue.t)
  (e : string) :
  ProcessingQueue_first photo_id (session st) = Some q ->
  process_body env cfg photo_id (snd (lease photo_id st)) = (Raise e, s2) ->
  process_single_photo env cfg photo_id st
  = (Failure e, snd (on_failure photo_id e s2)).
Proof.
  intros Hq Hbody. unfold process_single_photo. rewrite Hq.
  cbv zeta. rewrite Hbody. reflexivity.
Qed.

End WholePhoto.

(** C9 (as the source has it). When the photo is missing, the download
    fails or the detector raises, the queue entry of the photo ends failed
    with the text of the exception as error message ("Photo not found",
    "Failed to download image from S3", or whatever text the exception of
    S3 or of the detector carries), the call returns a failure with that
    text, and the rows of photos, persons and face matches are what they
    were before the call: the processed flag of the photo keeps its
    value. *)
Theorem early_failure_marks_entry_failed
  {image : Type} (env : Env image) (cfg : Config) (photo_id : string)
  (st : Session) (q : ProcessingQueue.t) (e : string) :
  ProcessingQueue_first photo_id (session st) = Some q ->
  fails_before_faces env photo_id (session st) e ->
  exists st',
    process_single_photo env cfg photo_id st = (Failure e, st')
    /\ ProcessingQueue_first photo_id (committed st')
       = Some (ProcessingQueue.mk (ProcessingQueue.id q)
                 (ProcessingQueue.photo_id q) failed (Some e))
    /\ photos (committed st') = photos (session st)
    /\ persons (committed st') = persons (session st)
    /\ face_matches (committed st') = face_matches (session st)
    /\ session st' = committed st'.
Proof.
  intros Hq Hfail.
  assert (Hbody : process_body env cfg photo_id (snd (lease photo_id st))
                  = (Raise e, snd (lease photo_id st))).
  { apply process_body_fails_early with (db := session st);
      [reflexivity | assumption]. }
  rewrite (process_single_photo_raise env cfg photo_id st _ q e Hq Hbody).
  eexists. split; [reflexivity|].
  rewrite on_failure_state, lease_state. cbn.
  split; [|repeat split; reflexivity].
  unfold ProcessingQueue_first in *. cbn.
  rewrite update_first_twice by reflexivity.
  rewrite (queue_item_after photo_id _ _ q); [reflexivity | reflexivity |].
  exact Hq.
Qed.

Lemma early_failure_marks_entry_failed_witness :
  let env := Sample.s3_down in
  let st := Sample.start (mkDB [Sample.photo1] [] [] [Sample.entry1 pending]) in
  exists st',
    process_single_photo env (Sample.cfg (6#10)) "photo-1" st
    = (Failure "Failed to download image from S3", st')
    /\ ProcessingQueue_first "photo-1" (committed st')
       = Some (ProcessingQueue.mk 1 "photo-1" failed
                 (Some "Failed to download image from S3"%string))
    /\ photos (committed st') = photos (session st)
    /\ persons (committed st') = persons (session st)
    /\ face_matches (committed st') = face_matches (session st)
    /\ session st' = committed st'.
Proof.
  intros env st.
  apply (early_failure_marks_entry_failed env (Sample.cfg (6#10)) "photo-1"
           st (Sample.entry1 pending)).
  - reflexivity.
  - apply download_failed with (photo := Sample.photo1); reflexivity.
Defined.

(** C9 (as worded) fails on both counts.  The detector raises an exception
    whose text is empty (a bare [MemoryError()], say): the entry is failed
    with the empty string as error message.  And a photo processed by an
    earlier run, whose download now fails, keeps processed = true. *)
Lemma failed_entry_with_empty_message :
  (let st := Sample.start (mkDB [Sample.photo1] [] []
                             [Sample.entry1 pending]) in
   let st' := snd (process_single_photo (Sample.broken_detector "")
                     (Sample.cfg (6#10)) "photo-1" st) in
   processing_queue (committed st')
   = [ProcessingQueue.mk 1 "photo-1" failed (Some ""%string)])
  /\
  (let st := Sample.start
               (mkDB [Photo.mk "photo-1" "photos/photo-1/a.jpg" true 1] [] []
                  [Sample.entry1 pending]) in
   let st' := snd (process_single_photo Sample.s3_down
                     (Sample.cfg (6#10)) "photo-1" st) in
   map ProcessingQueue.status (processing_queue (committed st')) = [failed]
   /\ map Photo.processed (photos (committed st')) = [true]).
Proof. repeat split. Qed.

(** C6. When the detector finds no face, the call succeeds with zero
    faces: the photo ends with processed = true and face_count = 0, no row
    of face matches or persons is added, and the queue entry of the photo
    ends completed; all of it is committed. *)
Theorem no_face_photo_completes
  {image : Type} (env : Env image) (cfg : Config) (photo_id : string)
  (st : Session) (q : ProcessingQueue.t) (photo : Photo.t) (img : image)
  (locations : list box) :
  ProcessingQueue_first photo_id (session st) = Some q ->
  find (fun p => Photo.id p =? photo_id)%string (photos (session st))
  = Some photo ->
  s3_get_object env (Photo.s3_key photo) = S3Ok img ->
  face_locations env img = Ok locations ->
  face_encodings env img locations = Ok [] ->
  exists st',
    process_single_photo env cfg photo_id st = (Success 0, st')
    /\ find (fun p => Photo.id p =? photo_id)%string (photos (committed st'))
       = Some (Photo.mk (Photo.id photo) (Photo.s3_key photo) true 0)
    /\ face_matches (committed st') = face_matches (session st)
    /\ persons (committed st') = persons (session st)
    /\ ProcessingQueue_first photo_id (committed st')
       = Some (ProcessingQueue.set_status completed q)
    /\ session st' = committed st'.
Proof.
  intros Hq Hphoto Hget Hloc Henc.
  unfold process_single_photo. rewrite Hq. cbv zeta.
  rewrite lease_state. cbn [snd].
  unfold process_body, bind, Photo_query_get, download_image_from_s3, lift.
  cbn [session photos]. rewrite Hphoto. cbv beta iota.
  rewrite Hget. unfold ret at 1. cbv beta iota.
  rewrite Hloc. cbv beta iota. rewrite Henc. cbn.
  eexists. split; [reflexivity|]. cbn.
  split.
  { rewrite update_first_twice by reflexivity.
    rewrite find_update_first with (x := photo); [reflexivity | assumption |].
    apply find_some in Hphoto. apply Hphoto. }
  split; [reflexivity|]. split; [reflexivity|].
  split; [|reflexivity].
  unfold ProcessingQueue_first in *. cbn.
  rewrite update_first_twice by reflexivity.
  rewrite (queue_item_after photo_id _ _ q); [reflexivity | reflexivity |].
  exact Hq.
Qed.

Lemma no_face_photo_completes_witness :
  let env := Sample.calm [] in
  let st := Sample.start (mkDB [Sample.photo1] [Sample.person "p0" 0 1] []
                            [Sample.entry1 pending]) in
  exists st',
    process_single_photo env (Sample.cfg (6#10)) "photo-1" st = (Success 0, st')
    /\ find (fun p => Photo.id p =? "photo-1")%string (photos (committed st'))
       = Some (Photo.mk "photo-1" "photos/photo-1/a.jpg" true 0)
    /\ face_matches (committed st') = face_matches (session st)
    /\ persons (committed st') = persons (session st)
    /\ ProcessingQueue_first "photo-1" (committed st')
       = Some (ProcessingQueue.set_status completed (Sample.entry1 pending))
    /\ session st' = committed st'.
Proof.
  intros env st.
  apply (no_face_photo_completes env (Sample.cfg (6#10)) "photo-1" st
           (Sample.entry1 pending) Sample.photo1 [] []); reflexivity.
Defined.

Lemma bind_assoc {A B C} (m : M A) (k : A -> M B) (h : B -> M C)
  (st : Session) :
  bind (bind m k) h st = bind m (fun a => bind (k a) h) st.
Proof.
  unfold bind. destruct (m st) as [[a|e] st']; reflexivity.
Qed.

Lemma bind_run {A B} (m : M A) (k : A -> M B) (st st' : Session) (a : A) :
  m st = (Ok a, st') -> bind m k st = k a st'.
Proof. intros H. unfold bind. now rewrite H. Qed.

Lemma bind_shift {A B} (m m' : M A) (k : A -> M B) (st st' : Session) :
  m st = m' st' -> bind m k st = bind m' k st'.
Proof. intros H. unfold bind. now rewrite H. Qed.

Section Snapshot.

Context {image : Type}.
Variable env : Env image.
Variable cfg : Config.
Variable photo_id : string.

(** With at least one face detected, the body reads the table of persons
    once, builds the working lists from it, and runs the loop over the
    zipped faces; the photo and the queue entry are written after the
    loop. *)
Lemma process_body_loop (st : Session) (photo : Photo.t) (img : image)
  (locations : list box) (encodings : list encoding) :
  find (fun p => Photo.id p =? photo_id)%string (photos (session st))
  = Some photo ->
  s3_get_object env (Photo.s3_key photo) = S3Ok img ->
  face_locations env img = Ok locations ->
  face_encodings env img locations = Ok encodings ->
  encodings <> [] ->
  process_body env cfg photo_id st
  = (loc <- process_faces env cfg photo_id img
              (mkLocals (map Person.face_encoding (persons (session st)))
                 (map Person.id (persons (session st))) 0)
              (combine encodings locations) ;;
     update_photo photo_id (Photo.set_processed true) ;;;
     update_photo photo_id
       (Photo.set_face_count (Z.of_nat (faces_processed loc))) ;;;
     update_queue_item photo_id (ProcessingQueue.set_status completed) ;;;
     commit ;;;
     ret (Success (faces_processed loc))) st.
Proof.
  intros Hphoto Hget Hloc Henc Hne.
  unfold process_body.
  unfold bind at 1. unfold Photo_query_get. rewrite Hphoto.
  unfold bind at 1. unfold download_image_from_s3. rewrite Hget.
  unfold ret at 1.
  unfold bind at 1. unfold lift at 1. rewrite Hloc.
  unfold bind at 1. unfold lift at 1. rewrite Henc.
  destruct encodings as [|e0 es]; [contradiction|].
  cbn [List.length Nat.eqb].
  unfold bind at 1. unfold Person_query_all. reflexivity.
Qed.

End Snapshot.

(** C5. On a photo whose detected faces are fs1, then f, then fs2, the
    body takes one snapshot of the persons at the start, handles the faces
    in the order of detection, and reaches f with working lists made of the
    snapshot followed by the persons created for the faces of fs1: every
    person created for an earlier face is among the references f is
    compared with.  One FaceMatch row was added per earlier face, in
    order. *)
Theorem later_faces_see_earlier_persons
  {image : Type} (env : Env image) (cfg : Config) (photo_id : string)
  (st : Session) (photo : Photo.t) (img : image) (locations : list box)
  (encodings : list encoding) (fs1 fs2 : list (encoding * box))
  (f : encoding * box) (loc1 : Locals) (s1 : Session) :
  find (fun p => Photo.id p =? photo_id)%string (photos (session st))
  = Some photo ->
  s3_get_object env (Photo.s3_key photo) = S3Ok img ->
  face_locations env img = Ok locations ->
  face_encodings env img locations = Ok encodings ->
  combine encodings locations = fs1 ++ f :: fs2 ->
  process_faces env cfg photo_id img
    (mkLocals (map Person.face_encoding (persons (session st)))
       (map Person.id (persons (session st))) 0) fs1 st = (Ok loc1, s1) ->
  process_body env cfg photo_id st
  = (loc2 <- process_face env cfg photo_id img loc1 f ;;
     loc <- process_faces env cfg photo_id img loc2 fs2 ;;
     update_photo photo_id (Photo.set_processed true) ;;;
     update_photo photo_id
       (Photo.set_face_count (Z.of_nat (faces_processed loc))) ;;;
     update_queue_item photo_id (ProcessingQueue.set_status completed) ;;;
     commit ;;;
     ret (Success (faces_processed loc))) s1
  /\ exists P' N rows,
      persons (session s1) = P' ++ N
      /\ same_identities (persons (session st)) P'
      /\ Forall (fun p => In (Person.face_encoding p) (map fst fs1)) N
      /\ known_person_ids loc1
         = map Person.id (persons (session st)) ++ map Person.id N
      /\ known_encodings loc1
         = map Person.face_encoding (persons (session st))
           ++ map Person.face_encoding N
      /\ face_matches (session s1) = face_matches (session st) ++ rows
      /\ map detected rows = fs1
      /\ faces_processed loc1 = List.length fs1.
Proof.
  intros Hphoto Hget Hloc Henc Hzip Hrun.
  split.
  - assert (Hne : encodings <> [])
      by (intros ->; destruct fs1; discriminate).
    rewrite (process_body_loop env cfg photo_id st photo img locations
               encodings Hphoto Hget Hloc Henc Hne).
    rewrite Hzip. etransitivity.
    { apply bind_shift
        with (m' := process_faces env cfg photo_id img loc1 (f :: fs2))
             (st' := s1).
      rewrite process_faces_app, (bind_run _ _ _ _ _ Hrun). reflexivity. }
    cbn [process_faces]. apply bind_assoc.
  - assert (Hws : working_set
                    (mkLocals (map Person.face_encoding (persons (session st)))
                       (map Person.id (persons (session st))) 0)
                    (persons (session st))) by (split; reflexivity).
    destruct (process_faces_steps env cfg photo_id img fs1 _ loc1 st s1
                Hws Hrun)
      as (P' & N & rows & HP & Hsame & HN & [Hids Hencs] & Hfm & Hdet & _
          & Hcnt & _).
    exists P', N, rows. destruct Hsame as [Hs1 Hs2].
    repeat split; try assumption.
    + rewrite Hids, HP, map_app. congruence.
    + rewrite Hencs, HP, map_app. congruence.
Qed.

Lemma later_faces_see_earlier_persons_witness :
  let picture := [Sample.face 0 (9#10); Sample.face 1 (9#10)] in
  let env := Sample.calm picture in
  let cfg := Sample.cfg (6#10) in
  let st := Sample.start (mkDB [Sample.photo1] [] []
                            [Sample.entry1 processing]) in
  let loc1 := mkLocals [[9#10]] ["uuid-1"%string] 1 in
  let s1 := snd (process_faces env cfg "photo-1" picture (mkLocals [] [] 0)
                   [Sample.face 0 (9#10)] st) in
  process_faces env cfg "photo-1" picture (mkLocals [] [] 0)
    [Sample.face 0 (9#10)] st = (Ok loc1, s1)
  /\ process_body env cfg "photo-1" st
     = (loc2 <- process_face env cfg "photo-1" picture loc1
                  (Sample.face 1 (9#10)) ;;
        loc <- process_faces env cfg "photo-1" picture loc2 [] ;;
        update_photo "photo-1" (Photo.set_processed true) ;;;
        update_photo "photo-1"
          (Photo.set_face_count (Z.of_nat (faces_processed loc))) ;;;
        update_queue_item "photo-1" (ProcessingQueue.set_status completed) ;;;
        commit ;;;
        ret (Success (faces_processed loc))) s1
  /\ exists P' N rows,
      persons (session s1) = P' ++ N
      /\ same_identities (persons (session st)) P'
      /\ Forall (fun p => In (Person.face_encoding p)
                            (map fst [Sample.face 0 (9#10)])) N
      /\ known_person_ids loc1
         = map Person.id (persons (session st)) ++ map Person.id N
      /\ known_encodings loc1
         = map Person.face_encoding (persons (session st))
           ++ map Person.face_encoding N
      /\ face_matches (session s1) = face_matches (session st) ++ rows
      /\ map detected rows = [Sample.face 0 (9#10)]
      /\ faces_processed loc1 = 1%nat.
Proof.
  intros picture env cfg st loc1 s1.
  assert (H1 : process_faces env cfg "photo-1" picture (mkLocals [] [] 0)
                 [Sample.face 0 (9#10)] st = (Ok loc1, s1))
    by (vm_compute; reflexivity).
  split; [exact H1|].
  apply (later_faces_see_earlier_persons env cfg "photo-1" st Sample.photo1
           picture (map snd picture) (map fst picture)
           [Sample.face 0 (9#10)] [] (Sample.face 1 (9#10)) loc1 s1);
    solve [exact H1 | reflexivity].
Defined.

(** Two detections of the same unknown face in one photo: the first
    creates a person, the second is matched with it. *)
Example repeated_face_matches_person_of_same_photo :
  let picture := [Sample.face 0 (9#10); Sample.face 1 (9#10)] in
  let st := Sample.start (mkDB [Sample.photo1] [] []
                            [Sample.entry1 pending]) in
  let r := process_single_photo (Sample.calm picture) (Sample.cfg (6#10))
             "photo-1" st in
  fst r = Success 2
  /\ map (fun p => (Person.id p, Person.photo_count p))
       (persons (committed (snd r))) = [("uuid-1"%string, 2%Z)]
  /\ map FaceMatch.person_id (face_matches (committed (snd r)))
     = ["uuid-1"%string; "uuid-1"%string].
Proof. repeat split. Qed.


(** ** The queue *)


Section Queue.

Context {image : Type}.
Variable env : Env image.
Variable cfg : Config.
Variable photo_id : string.



End Queue.




Lemma Permutation_filter {A} (f : A -> bool) (l l' : list A) :
  Permutation l l' -> Permutation (filter f l) (filter f l').
Proof.
  induction 1 as [|x l l' _ IH|x y l|l l' l'' _ IH1 _ IH2]; simpl.
  - constructor.
  - destruct (f x); [now constructor | assumption].
  - destruct (f x), (f y); try apply Permutation_refl. apply perm_swap.
  - now apply Permutation_trans with (filter f l').
Qed.

(** C8 (as the source has it). One call of [start_processing] selects
    100 queue entries, or all the pending ones when there are fewer; all of
    them are pending, and they are rows of the table, none taken twice.
    The query has no ORDER BY: which pending rows are selected, and in what
    order, is the order in which the database returns the table; they are
    the oldest, in insertion order, when the database returns the table in
    insertion order. *)
Theorem start_processing_selects_pending
  (scan : list ProcessingQueue.t -> list ProcessingQueue.t) (db : DB) :
  (forall l, Permutation (scan l) l) ->
  List.length (pending_queue scan db)
  = Nat.min 100
      (List.length
         (filter (fun q => Status_eqb (ProcessingQueue.status q) pending)
            (processing_queue db)))
  /\ Forall (fun q => ProcessingQueue.status q = pending) (pending_queue scan db)
  /\ (exists rest,
        Permutation (pending_queue scan db ++ rest)
          (filter (fun q => Status_eqb (ProcessingQueue.status q) pending)
             (processing_queue db)))
  /\ (scan (processing_queue db) = processing_queue db ->
      exists rest,
        filter (fun q => Status_eqb (ProcessingQueue.status q) pending)
          (processing_queue db) = pending_queue scan db ++ rest).
Proof.
  intros Hscan. unfold pending_queue.
  set (is_pending := fun q => Status_eqb (ProcessingQueue.status q) pending).
  set (l := filter is_pending (scan (processing_queue db))).
  assert (Hl : Permutation l (filter is_pending (processing_queue db)))
    by (apply Permutation_filter, Hscan).
  split; [rewrite length_firstn; now rewrite (Permutation_length Hl)|].
  split.
  { apply Forall_forall. intros q Hin.
    assert (Hq : In q l)
      by (rewrite <- (firstn_skipn 100 l); apply in_or_app; now left).
    apply filter_In in Hq. destruct Hq as [_ Hs]. unfold is_pending in Hs.
    destruct (ProcessingQueue.status q); simpl in Hs;
      [reflexivity | discriminate | discriminate | discriminate]. }
  split; [exists (skipn 100 l); now rewrite firstn_skipn|].
  intros Hid. exists (skipn 100 l). rewrite firstn_skipn.
  unfold l. now rewrite Hid.
Qed.

Lemma start_processing_selects_pending_witness :
  let db := mkDB [] [] []
              [ProcessingQueue.mk 1 "photo-a" completed None;
               ProcessingQueue.mk 2 "photo-b" pending None;
               ProcessingQueue.mk 3 "photo-c" processing None;
               ProcessingQueue.mk 4 "photo-d" pending None] in
  let scan := fun l : list ProcessingQueue.t => l in
  List.length (pending_queue scan db)
  = Nat.min 100
      (List.length
         (filter (fun q => Status_eqb (ProcessingQueue.status q) pending)
            (processing_queue db)))
  /\ Forall (fun q => ProcessingQueue.status q = pending) (pending_queue scan db)
  /\ (exists rest,
        Permutation (pending_queue scan db ++ rest)
          (filter (fun q => Status_eqb (ProcessingQueue.status q) pending)
             (processing_queue db)))
  /\ (scan (processing_queue db) = processing_queue db ->
      exists rest,
        filter (fun q => Status_eqb (ProcessingQueue.status q) pending)
          (processing_queue db) = pending_queue scan db ++ rest).
Proof.
  intros db scan.
  apply (start_processing_selects_pending scan db).
  intros l. apply Permutation_refl.
Defined.

(** C8 (as worded) fails on the order.  Nothing in the query orders the
    rows; a database that returns the table newest row first hands out the
    newest pending photo before the oldest. *)
Lemma reverse_scan_selects_newest_first :
  (forall l : list ProcessingQueue.t, Permutation (rev l) l)
  /\ start_processing (@rev ProcessingQueue.t)
       (mkDB [] [] []
          [ProcessingQueue.mk 1 "photo-a" pending None;
           ProcessingQueue.mk 2 "photo-b" pending None])
     = ["photo-b"%string; "photo-a"%string]
  /\ ~ selects_oldest_first (@rev ProcessingQueue.t).
Proof.
  split; [intros l; apply Permutation_sym, Permutation_rev|].
  split; [reflexivity|].
  intros H.
  destruct (H (mkDB [] [] []
                 [ProcessingQueue.mk 1 "photo-a" pending None;
                  ProcessingQueue.mk 2 "photo-b" pending None]))
    as [rest Hrest].
  vm_compute in Hrest. discriminate.
Qed.

Example start_processing_skips_leased_and_finished :
  start_processing (fun l => l)
    (mkDB [] [] []
       [ProcessingQueue.mk 1 "photo-a" completed None;
        ProcessingQueue.mk 2 "photo-b" pending None;
        ProcessingQueue.mk 3 "photo-c" processing None;
        ProcessingQueue.mk 4 "photo-d" pending None])
  = ["photo-b"%string; "photo-d"%string].
Proof. reflexivity. Qed.

(** * Further properties *)

(** ** The matcher, continued *)

Lemma filter_idem {A} (f : A -> bool) (l : list A) :
  filter f (filter f l) = filter f l.
Proof.
  induction l as [|x l IH]; simpl; [reflexivity|].
  destruct (f x) eqn:E; simpl; [rewrite E, IH; reflexivity | exact IH].
Qed.

(** X1. The persons farther than the tolerance have no part in the
    decision: the matcher answers on the whole list as it does on the
    candidates alone. *)
Theorem find_match_ignores_far_persons
  {image : Type} (env : Env image) (cfg : Config)
  (known : list (string * encoding)) (face : encoding) :
  let near := spec_candidates env (FACE_RECOGNITION_TOLERANCE cfg) known face in
  find_match env cfg (map snd known) (map fst known) face
  = find_match env cfg (map snd near) (map fst near) face.
Proof.
  cbv zeta. rewrite !find_match_selected.
  unfold spec_candidates. rewrite filter_idem. reflexivity.
Qed.

(** What a match is made of, whatever the two working lists are: a known
    encoding within the tolerance, and one minus its distance. *)
Lemma find_match_confidence {image : Type} (env : Env image) (cfg : Config)
  (known_encodings : list encoding) (known_person_ids : list string)
  (face : encoding) (person_id : string) (confidence : Q) :
  find_match env cfg known_encodings known_person_ids face
  = Ok (Some (person_id, confidence)) ->
  exists k,
    In k known_encodings
    /\ In person_id known_person_ids
    /\ confidence = (1 - norm env k face)%Q
    /\ (norm env k face <= FACE_RECOGNITION_TOLERANCE cfg)%Q.
Proof.
  unfold find_match, compare_faces, face_distance.
  destruct (0 <? List.length known_encodings)%nat; [|discriminate].
  destruct (existsb _ _); [|discriminate].
  set (i := argmin (map (fun k => norm env k face) known_encodings)).
  rewrite !nth_error_map.
  destruct (nth_error known_encodings i) as [k|] eqn:Hk; simpl;
    [|discriminate].
  destruct (Qle_bool (norm env k face) (FACE_RECOGNITION_TOLERANCE cfg))
    eqn:Hle; [|discriminate].
  destruct (nth_error known_person_ids i) as [pid|] eqn:Hp; [|discriminate].
  intros H. injection H as <- <-.
  exists k. repeat split.
  - eapply nth_error_In; eassumption.
  - eapply nth_error_In; eassumption.
  - now apply Qle_bool_iff.
Qed.

(** X2. The confidence stored for a face is 1 for a new person and
    otherwise one minus a distance within the tolerance: with a
    non-negative norm and a non-negative tolerance it lies between
    1 - tolerance and 1. *)
Theorem stored_confidence_bounds
  {image : Type} (env : Env image) (cfg : Config) (photo_id : string)
  (image_array : image) (loc loc' : Locals) (face : encoding * box)
  (st st' : Session) :
  (forall a b, (0 <= norm env a b)%Q) ->
  (0 <= FACE_RECOGNITION_TOLERANCE cfg)%Q ->
  process_face env cfg photo_id image_array loc face st = (Ok loc', st') ->
  exists m,
    face_matches (session st') = face_matches (session st) ++ [m]
    /\ (1 - FACE_RECOGNITION_TOLERANCE cfg <= FaceMatch.confidence m)%Q
    /\ (FaceMatch.confidence m <= 1)%Q.
Proof.
  intros Hnorm Htol Hrun. destruct face as [face_encoding face_location].
  destruct (process_face_ok_inv env cfg photo_id image_array _ _ _ _ _ _ Hrun)
    as [(pid & c & person & Hfind & Hget) | (jpeg & Hfind & Hthumb & Hput)].
  - rewrite (process_face_matched env cfg photo_id image_array loc
               face_encoding face_location st pid c person Hfind Hget)
      in Hrun.
    injection Hrun as <- <-. eexists. split; [reflexivity|]. cbn.
    destruct (find_match_confidence env cfg _ _ _ _ _ Hfind)
      as (k & _ & _ & -> & Hle).
    split.
    + apply (Qplus_le_r _ _ (norm env k face_encoding
                             + FACE_RECOGNITION_TOLERANCE cfg - 1)).
      ring_simplify. exact Hle.
    + apply (Qplus_le_r _ _ (norm env k face_encoding - 1)).
      ring_simplify. apply Hnorm.
  - rewrite (process_face_new env cfg photo_id image_array loc
               face_encoding face_location st jpeg Hfind Hthumb Hput)
      in Hrun.
    injection Hrun as <- <-. eexists. split; [reflexivity|]. cbn.
    split; [|apply Qle_refl].
    apply (Qplus_le_r _ _ (FACE_RECOGNITION_TOLERANCE cfg - 1)).
    ring_simplify. exact Htol.
Qed.

Lemma stored_confidence_bounds_witness :
  let env := Sample.calm [Sample.face 0 (1#10)] in
  let cfg := Sample.cfg (6#10) in
  let st := Sample.start (mkDB [Sample.photo1] [Sample.person "p0" 0 1] []
                            [Sample.entry1 processing]) in
  let r := process_face env cfg "photo-1" [Sample.face 0 (1#10)]
             (mkLocals [[0%Q]] ["p0"%string] 0) (Sample.face 0 (1#10)) st in
  exists m,
    face_matches (session (snd r)) = face_matches (session st) ++ [m]
    /\ (1 - FACE_RECOGNITION_TOLERANCE cfg <= FaceMatch.confidence m)%Q
    /\ (FaceMatch.confidence m <= 1)%Q.
Proof.
  intros env cfg st r.
  apply (stored_confidence_bounds env cfg "photo-1" [Sample.face 0 (1#10)]
           (mkLocals [[0%Q]] ["p0"%string] 0)
           (mkLocals [[0%Q]] ["p0"%string] 1) (Sample.face 0 (1#10)) st
           (snd r)).
  - intros a b. apply Qabs_nonneg.
  - vm_compute. discriminate.
  - vm_compute. reflexivity.
Defined.

(** ** The loop, continued *)

Lemma find_by_id (P : list Person.t) (person_id : string) :
  In person_id (map Person.id P) ->
  exists p, find (fun p => Person.id p =? person_id)%string P = Some p.
Proof.
  induction P as [|x P IH]; simpl; [intros []|].
  destruct (Person.id x =? person_id)%string eqn:E.
  - intros _. now exists x.
  - intros [H|H]; [|now apply IH].
    rewrite H, String.eqb_refl in E. discriminate.
Qed.

Lemma total_photo_count_app (P N : list Person.t) :
  total_photo_count (P ++ N)
  = (total_photo_count P + total_photo_count N)%Z.
Proof.
  induction P as [|x P IH]; simpl; [reflexivity|]. rewrite IH. lia.
Qed.

Lemma total_photo_count_increment (p : Person.t -> bool) (P : list Person.t)
  (x : Person.t) :
  find p P = Some x ->
  total_photo_count
    (update_first p (Person.set_photo_count (Person.photo_count x + 1)) P)
  = (total_photo_count P + 1)%Z.
Proof.
  induction P as [|y P IH]; simpl; [discriminate|].
  destruct (p y); intros H.
  - injection H as ->. simpl. lia.
  - simpl. rewrite (IH H). lia.
Qed.

Section LoopAccounts.

Context {image : Type}.
Variable env : Env image.
Variable cfg : Config.
Variable photo_id : string.
Variable image_array : image.

(** On working lists that follow the table, the matcher does not raise
    and the person it names has a row. *)
Lemma find_match_on_working_set (loc : Locals) (P : list Person.t)
  (face : encoding) :
  working_set loc P ->
  find_match env cfg (known_encodings loc) (known_person_ids loc) face
  = Ok None
  \/ exists person_id confidence person,
      find_match env cfg (known_encodings loc) (known_person_ids loc) face
      = Ok (Some (person_id, confidence))
      /\ find (fun p => Person.id p =? person_id)%string P = Some person.
Proof.
  intros [Hids Hencs].
  set (known := map (fun p => (Person.id p, Person.face_encoding p)) P).
  assert (E1 : known_encodings loc = map snd known)
    by (unfold known; rewrite map_map; exact Hencs).
  assert (E2 : known_person_ids loc = map fst known)
    by (unfold known; rewrite map_map; exact Hids).
  destruct (find_match env cfg (known_encodings loc) (known_person_ids loc)
              face) as [[[pid c]|]|msg] eqn:Hfind.
  - right.
    destruct (find_match_confidence env cfg _ _ _ _ _ Hfind)
      as (_ & _ & Hin & _).
    rewrite Hids in Hin. destruct (find_by_id P pid Hin) as [person Hp].
    now exists pid, c, person.
  - now left.
  - rewrite E1, E2, find_match_selected in Hfind. discriminate.
Qed.

(** One face, on working lists that follow the table: the row added names
    a person of the table, and the counters of the table add up to one
    more. *)
Lemma process_face_accounts (loc loc' : Locals) (face : encoding * box)
  (st st' : Session) :
  process_face env cfg photo_id image_array loc face st = (Ok loc', st') ->
  exists m,
    face_matches (session st') = face_matches (session st) ++ [m]
    /\ In (FaceMatch.person_id m) (map Person.id (persons (session st')))
    /\ total_photo_count (persons (session st'))
       = (total_photo_count (persons (session st)) + 1)%Z.
Proof.
  destruct face as [face_encoding face_location]. intros Hrun.
  destruct (process_face_ok_inv env cfg photo_id image_array _ _ _ _ _ _ Hrun)
    as [(pid & c & person & Hfind & Hget) | (jpeg & Hfind & Hthumb & Hput)].
  - rewrite (process_face_matched env cfg photo_id image_array loc
               face_encoding face_location st pid c person Hfind Hget)
      in Hrun.
    injection Hrun as <- <-. eexists. split; [reflexivity|]. cbn.
    split.
    + rewrite map_update_first by reflexivity.
      apply find_some in Hget. destruct Hget as [Hin Heq].
      apply String.eqb_eq in Heq. rewrite <- Heq. now apply in_map.
    + now apply total_photo_count_increment.
  - rewrite (process_face_new env cfg photo_id image_array loc
               face_encoding face_location st jpeg Hfind Hthumb Hput)
      in Hrun.
    injection Hrun as <- <-. eexists. split; [reflexivity|]. cbn.
    split.
    + rewrite map_app. apply in_or_app. right. now left.
    + rewrite total_photo_count_app. reflexivity.
Qed.

(** When neither PIL nor the upload raises, the body of the loop ends
    normally. *)
Lemma process_face_total (loc : Locals) (face : encoding * box)
  (st : Session) :
  (forall im n, exists jpeg, pil_thumbnail env im n = Ok jpeg) ->
  (forall k b msg, s3_put_object env k b <> S3OtherError msg) ->
  working_set loc (persons (session st)) ->
  exists loc' st',
    process_face env cfg photo_id image_array loc face st = (Ok loc', st').
Proof.
  intros Hpil Hput Hws. destruct face as [face_encoding face_location].
  destruct (find_match_on_working_set loc _ face_encoding Hws)
    as [Hfind | (pid & c & person & Hfind & Hget)].
  - destruct (Hpil (crop env image_array face_location) 200%nat)
      as [jpeg Hthumb].
    eexists _, _.
    apply (process_face_new env cfg photo_id image_array loc face_encoding
             face_location st jpeg Hfind Hthumb).
    intros msg. apply Hput.
  - eexists _, _.
    apply (process_face_matched env cfg photo_id image_array loc
             face_encoding face_location st pid c person Hfind Hget).
Qed.

Lemma process_faces_total (fs : list (encoding * box)) (loc : Locals)
  (st : Session) :
  (forall im n, exists jpeg, pil_thumbnail env im n = Ok jpeg) ->
  (forall k b msg, s3_put_object env k b <> S3OtherError msg) ->
  working_set loc (persons (session st)) ->
  exists loc' st',
    process_faces env cfg photo_id image_array loc fs st = (Ok loc', st').
Proof.
  intros Hpil Hput. revert loc st.
  induction fs as [|f fs IH]; intros loc st Hws.
  - now exists loc, st.
  - destruct (process_face_total loc f st Hpil Hput Hws)
      as (loc1 & s1 & Hstep).
    destruct (process_face_step env cfg photo_id image_array _ _ _ _ _
                Hws Hstep) as (_ & _ & _ & _ & _ & _ & Hws1 & _).
    destruct (IH loc1 s1 Hws1) as (loc2 & s2 & Hrest).
    exists loc2, s2. simpl. unfold bind. now rewrite Hstep.
Qed.

End LoopAccounts.

(** X3. Every face the loop handles adds exactly one to the sum of the
    photo_count column, whether it is matched with a person or creates
    one. *)
Theorem photo_counts_grow_by_number_of_faces
  {image : Type} (env : Env image) (cfg : Config) (photo_id : string)
  (image_array : image) (fs : list (encoding * box)) (loc loc1 : Locals)
  (st s1 : Session) :
  process_faces env cfg photo_id image_array loc fs st = (Ok loc1, s1) ->
  total_photo_count (persons (session s1))
  = (total_photo_count (persons (session st)) + Z.of_nat (List.length fs))%Z.
Proof.
  revert loc st; induction fs as [|f fs IH]; intros loc st Hrun.
  - simpl in Hrun. injection Hrun as <- <-. simpl. lia.
  - simpl in Hrun. unfold bind in Hrun.
    destruct (process_face env cfg photo_id image_array loc f st)
      as [[loc'|e] st'] eqn:Hstep; [|discriminate].
    destruct (process_face_accounts env cfg photo_id image_array _ _ _ _ _
                Hstep) as (m & _ & _ & Hsum).
    rewrite (IH loc' st' Hrun), Hsum. simpl List.length. lia.
Qed.

Lemma photo_counts_grow_by_number_of_faces_witness :
  let picture := [Sample.face 0 (1#10); Sample.face 1 (9#10)] in
  let env := Sample.calm picture in
  let cfg := Sample.cfg (6#10) in
  let st := Sample.start (mkDB [Sample.photo1] [Sample.person "p0" 0 4] []
                            [Sample.entry1 processing]) in
  let s1 := snd (process_faces env cfg "photo-1" picture
                   (mkLocals [[0%Q]] ["p0"%string] 0) picture st) in
  total_photo_count (persons (session s1))
  = (total_photo_count (persons (session st)) + 2)%Z.
Proof.
  intros picture env cfg st s1.
  apply (photo_counts_grow_by_number_of_faces env cfg "photo-1" picture
           picture (mkLocals [[0%Q]] ["p0"%string] 0)
           (mkLocals [[0%Q]; [9#10]] ["p0"%string; "uuid-2"%string] 2) st s1).
  vm_compute. reflexivity.
Defined.

(** X4. Every FaceMatch row the loop adds refers to a person that has a
    row in the table when the loop ends (and to the photo being
    processed). *)
Theorem face_match_rows_refer_to_persons
  {image : Type} (env : Env image) (cfg : Config) (photo_id : string)
  (image_array : image) (fs : list (encoding * box)) (loc loc1 : Locals)
  (st s1 : Session) :
  working_set loc (persons (session st)) ->
  process_faces env cfg photo_id image_array loc fs st = (Ok loc1, s1) ->
  exists rows,
    face_matches (session s1) = face_matches (session st) ++ rows
    /\ List.length rows = List.length fs
    /\ Forall (fun m =>
                 In (FaceMatch.person_id m)
                    (map Person.id (persons (session s1)))
                 /\ FaceMatch.photo_id m = photo_id) rows.
Proof.
  revert loc st; induction fs as [|f fs IH]; intros loc st Hws Hrun.
  - simpl in Hrun. injection Hrun as <- <-. exists [].
    rewrite app_nil_r. repeat split. constructor.
  - simpl in Hrun. unfold bind in Hrun.
    destruct (process_face env cfg photo_id image_array loc f st)
      as [[loc'|e] st'] eqn:Hstep; [|discriminate].
    destruct (process_face_accounts env cfg photo_id image_array _ _ _ _ _
                Hstep) as (m & Hfm & Hin & _).
    destruct (process_face_step env cfg photo_id image_array _ _ _ _ _
                Hws Hstep)
      as (_ & _ & m' & _ & _ & _ & Hws' & Hfm' & _ & Hpid & _).
    assert (m' = m) as ->.
    { rewrite Hfm in Hfm'. apply app_inv_head in Hfm'. now injection Hfm'. }
    destruct (IH loc' st' Hws' Hrun) as (rows & Hrows & Hlen & Hall).
    destruct (process_faces_steps env cfg photo_id image_array fs _ _ _ _
                Hws' Hrun) as (P' & N & _ & HP & [Hids _] & _).
    exists (m :: rows).
    split; [rewrite Hrows, Hfm, <- app_assoc; reflexivity|].
    split; [simpl; now rewrite Hlen|].
    constructor; [|exact Hall].
    split; [|exact Hpid].
    rewrite HP, map_app, Hids. apply in_or_app. now left.
Qed.

Lemma face_match_rows_refer_to_persons_witness :
  let picture := [Sample.face 0 (1#10); Sample.face 1 (9#10)] in
  let env := Sample.calm picture in
  let cfg := Sample.cfg (6#10) in
  let st := Sample.start (mkDB [Sample.photo1] [Sample.person "p0" 0 4] []
                            [Sample.entry1 processing]) in
  let s1 := snd (process_faces env cfg "photo-1" picture
                   (mkLocals [[0%Q]] ["p0"%string] 0) picture st) in
  exists rows,
    face_matches (session s1) = face_matches (session st) ++ rows
    /\ List.length rows = 2%nat
    /\ Forall (fun m =>
                 In (FaceMatch.person_id m)
                    (map Person.id (persons (session s1)))
                 /\ FaceMatch.photo_id m = "photo-1"%string) rows.
Proof.
  intros picture env cfg st s1.
  apply (face_match_rows_refer_to_persons env cfg "photo-1" picture
           picture (mkLocals [[0%Q]] ["p0"%string] 0)
           (mkLocals [[0%Q]; [9#10]] ["p0"%string; "uuid-2"%string] 2) st s1).
  - split; reflexivity.
  - vm_compute. reflexivity.
Defined.

(** ** The whole of [process_single_photo], continued *)

(** X5. A run fails only if a collaborator does.  With a queue entry and a
    photo row, a download and a detection that succeed, and PIL and the
    upload never raising, the call succeeds whatever the persons already
    known: it answers the number of zipped faces, which is also the
    face_count written on the photo and the number of FaceMatch rows added,
    one per face in the order of detection; the photo is processed, the
    entry completed, and all of it committed. *)
Theorem run_succeeds_when_collaborators_do
  {image : Type} (env : Env image) (cfg : Config) (photo_id : string)
  (st : Session) (q : ProcessingQueue.t) (photo : Photo.t) (img : image)
  (locations : list box) (encodings : list encoding) :
  ProcessingQueue_first photo_id (session st) = Some q ->
  find (fun p => Photo.id p =? photo_id)%string (photos (session st))
  = Some photo ->
  s3_get_object env (Photo.s3_key photo) = S3Ok img ->
  face_locations env img = Ok locations ->
  face_encodings env img locations = Ok encodings ->
  (forall im n, exists jpeg, pil_thumbnail env im n = Ok jpeg) ->
  (forall k b msg, s3_put_object env k b <> S3OtherError msg) ->
  let fs := combine encodings locations in
  exists st' rows,
    process_single_photo env cfg photo_id st
    = (Success (List.length fs), st')
    /\ find (fun p => Photo.id p =? photo_id)%string (photos (committed st'))
       = Some (Photo.mk (Photo.id photo) (Photo.s3_key photo) true
                 (Z.of_nat (List.length fs)))
    /\ face_matches (committed st') = face_matches (session st) ++ rows
    /\ map detected rows = fs
    /\ ProcessingQueue_first photo_id (committed st')
       = Some (ProcessingQueue.set_status completed q)
    /\ session st' = committed st'.
Proof.
  intros Hq Hphoto Hget Hloc Henc Hpil Hput fs.
  unfold process_single_photo. rewrite Hq. cbv zeta.
  set (st1 := snd (lease photo_id st)).
  assert (Hst1 : session st1
                 = mkDB (photos (session st)) (persons (session st))
                     (face_matches (session st))
                     (update_first
                        (fun x => ProcessingQueue.photo_id x =? photo_id)%string
                        (ProcessingQueue.set_status processing)
                        (processing_queue (session st))))
    by reflexivity.
  assert (Hphoto1 : find (fun p => Photo.id p =? photo_id)%string
                      (photos (session st1)) = Some photo)
    by (rewrite Hst1; exact Hphoto).
  assert (Hid : (Photo.id photo =? photo_id)%string = true)
    by (apply find_some in Hphoto; apply Hphoto).
  assert (Hqueue : forall l,
             l = update_first
                   (fun x => ProcessingQueue.photo_id x =? photo_id)%string
                   (ProcessingQueue.set_status processing)
                   (processing_queue (session st)) ->
             find (fun x => ProcessingQueue.photo_id x =? photo_id)%string
               (update_first
                  (fun x => ProcessingQueue.photo_id x =? photo_id)%string
                  (ProcessingQueue.set_status completed) l)
             = Some (ProcessingQueue.set_status completed q)).
  { intros l ->. rewrite update_first_twice by reflexivity.
    rewrite (queue_item_after photo_id _ _ q); [reflexivity | reflexivity |].
    exact Hq. }
  assert (Hcase : encodings = [] \/ encodings <> [])
    by (destruct encodings; [now left | right; discriminate]).
  destruct Hcase as [Hnil | Hne].
  - subst encodings. subst fs.
    unfold process_body, bind, Photo_query_get, download_image_from_s3, lift.
    rewrite Hphoto1. cbv beta iota. rewrite Hget. unfold ret at 1.
    cbv beta iota. rewrite Hloc. cbv beta iota. rewrite Henc. cbn.
    eexists _, []. split; [reflexivity|]. cbn.
    split.
    { rewrite update_first_twice by reflexivity.
      rewrite find_update_first with (x := photo);
        [reflexivity | assumption | assumption]. }
    split; [now rewrite app_nil_r|]. split; [reflexivity|].
    split; [|reflexivity].
    unfold ProcessingQueue_first. cbn. now apply Hqueue.
  - assert (Hws : working_set
                    (mkLocals (map Person.face_encoding (persons (session st1)))
                       (map Person.id (persons (session st1))) 0)
                    (persons (session st1))) by (split; reflexivity).
    destruct (process_faces_total env cfg photo_id img fs _ st1 Hpil Hput Hws)
      as (loc & s1 & Hloop).
    destruct (process_faces_steps env cfg photo_id img fs _ loc st1 s1
                Hws Hloop)
      as (_ & _ & rows & _ & _ & _ & _ & Hfm & Hdet & _ & Hcnt & Hph & Hqu & _).
    cbn [faces_processed Nat.add] in Hcnt.
    rewrite (process_body_loop env cfg photo_id st1 photo img locations
               encodings Hphoto1 Hget Hloc Henc Hne).
    fold fs. unfold bind at 1. rewrite Hloop. cbn. rewrite Hcnt.
    eexists _, rows. split; [reflexivity|]. cbn.
    rewrite Hph, Hfm, Hqu, Hst1. cbn.
    split.
    { rewrite update_first_twice by reflexivity.
      rewrite find_update_first with (x := photo);
        [reflexivity | assumption | assumption]. }
    split; [reflexivity|]. split; [exact Hdet|].
    split; [|reflexivity].
    unfold ProcessingQueue_first. cbn. now apply Hqueue.
Qed.

Lemma run_succeeds_when_collaborators_do_witness :
  let picture := [Sample.face 0 (1#10); Sample.face 1 (9#10)] in
  let env := Sample.calm picture in
  let cfg := Sample.cfg (6#10) in
  let st := Sample.start (mkDB [Sample.photo1] [Sample.person "p0" 0 4] []
                            [Sample.entry1 pending]) in
  exists st' rows,
    process_single_photo env cfg "photo-1" st = (Success 2, st')
    /\ find (fun p => Photo.id p =? "photo-1")%string (photos (committed st'))
       = Some (Photo.mk "photo-1" "photos/photo-1/a.jpg" true 2)
    /\ face_matches (committed st') = face_matches (session st) ++ rows
    /\ map detected rows = picture
    /\ ProcessingQueue_first "photo-1" (committed st')
       = Some (ProcessingQueue.set_status completed (Sample.entry1 pending))
    /\ session st' = committed st'.
Proof.
  intros picture env cfg st.
  apply (run_succeeds_when_collaborators_do env cfg "photo-1" st
           (Sample.entry1 pending) Sample.photo1 picture (map snd picture)
           (map fst picture)); try reflexivity.
  - intros im n. now exists "jpeg"%string.
  - intros k b msg. discriminate.
Defined.

(** X6. A thumbnail that S3 refuses with a ClientError does not stop the
    face: the refusal is swallowed by [upload_to_s3], and the person is
    created all the same, its row pointing to the key under which nothing
    was stored. *)
Theorem refused_thumbnail_still_creates_person
  {image : Type} (env : Env image) (cfg : Config) (photo_id : string)
  (image_array : image) (loc : Locals) (face_encoding : encoding)
  (face_location : box) (st : Session) (jpeg : string) :
  Forall (fun k => (FACE_RECOGNITION_TOLERANCE cfg < norm env k face_encoding)%Q)
    (known_encodings loc) ->
  pil_thumbnail env (crop env image_array face_location) 200 = Ok jpeg ->
  s3_put_object env
    ("thumbnails/" ++ uuid4 env (uuid_calls st) ++ ".jpg")%string jpeg
  = S3ClientError ->
  exists loc' st' p,
    process_face env cfg photo_id image_array loc
      (face_encoding, face_location) st = (Ok loc', st')
    /\ persons (session st') = persons (session st) ++ [p]
    /\ Person.thumbnail_s3_key p
       = Some ("thumbnails/" ++ uuid4 env (uuid_calls st) ++ ".jpg")%string
    /\ Person.face_encoding p = face_encoding
    /\ List.length (face_matches (session st'))
       = S (List.length (face_matches (session st))).
Proof.
  intros Hfar Hthumb Hput.
  assert (Hnot : forall msg,
             s3_put_object env
               ("thumbnails/" ++ uuid4 env (uuid_calls st) ++ ".jpg")%string
               jpeg <> S3OtherError msg)
    by (intros msg; rewrite Hput; discriminate).
  pose proof (process_face_new env cfg photo_id image_array loc face_encoding
                face_location st jpeg
                (find_match_none env cfg _ (known_person_ids loc) _ Hfar)
                Hthumb Hnot) as H.
  cbv zeta in H.
  eexists _, _, _. split; [exact H|]. cbn.
  repeat split. rewrite length_app. simpl. lia.
Qed.

Lemma refused_thumbnail_still_creates_person_witness :
  let picture := [Sample.face 0 (9#10)] in
  let env := SampleApp.s3_read_only picture in
  let cfg := Sample.cfg (6#10) in
  let st := Sample.start (mkDB [Sample.photo1] [Sample.person "p0" 0 1] []
                            [Sample.entry1 processing]) in
  exists loc' st' p,
    process_face env cfg "photo-1" picture (mkLocals [[0%Q]] ["p0"%string] 0)
      (Sample.face 0 (9#10)) st = (Ok loc', st')
    /\ persons (session st') = persons (session st) ++ [p]
    /\ Person.thumbnail_s3_key p = Some "thumbnails/uuid-0.jpg"%string
    /\ Person.face_encoding p = [9#10]
    /\ List.length (face_matches (session st'))
       = S (List.length (face_matches (session st))).
Proof.
  intros picture env cfg st.
  apply (refused_thumbnail_still_creates_person env cfg "photo-1" picture
           (mkLocals [[0%Q]] ["p0"%string] 0) [9#10]
           (snd (Sample.face 0 (9#10))) st "jpeg").
  - repeat constructor.
  - reflexivity.
  - reflexivity.
Defined.

(** ** What a run leaves alone *)

Lemma update_first_same {A} (p : A -> bool) (l : list A) :
  update_first p (fun x => x) l = l.
Proof.
  induction l as [|x l IH]; simpl; [reflexivity|].
  destruct (p x); [reflexivity | now rewrite IH].
Qed.

Lemma counted_up_refl (p : Person.t) : counted_up p p.
Proof. repeat split. apply Z.le_refl. Qed.

Lemma counted_up_trans (p q r : Person.t) :
  counted_up p q -> counted_up q r -> counted_up p r.
Proof.
  intros (A1 & A2 & A3 & A4 & A5) (B1 & B2 & B3 & B4 & B5).
  repeat split; try congruence. lia.
Qed.

Lemma Forall2_counted_up_refl (P : list Person.t) : Forall2 counted_up P P.
Proof. induction P; constructor; [apply counted_up_refl | assumption]. Qed.

Lemma Forall2_counted_up_trans (P Q R : list Person.t) :
  Forall2 counted_up P Q -> Forall2 counted_up Q R -> Forall2 counted_up P R.
Proof.
  intros H. revert R. induction H as [|p q P Q Hpq _ IH]; intros R HR.
  - inversion HR. constructor.
  - inversion HR as [|q' r Q' R' Hqr HQR]; subst.
    constructor; [now apply counted_up_trans with q | now apply IH].
Qed.

Lemma persons_grow_refl (P : list Person.t) : persons_grow P P.
Proof.
  exists P, []. rewrite app_nil_r.
  split; [reflexivity | apply Forall2_counted_up_refl].
Qed.

Lemma persons_grow_trans (P Q R : list Person.t) :
  persons_grow P Q -> persons_grow Q R -> persons_grow P R.
Proof.
  intros (P' & N & -> & HP) (Q' & M & -> & HQ).
  apply Forall2_app_inv_l in HQ.
  destruct HQ as (P'' & N' & HP' & _ & ->).
  exists P'', (N' ++ M). split; [now rewrite app_assoc|].
  now apply Forall2_counted_up_trans with P'.
Qed.

Lemma persons_grow_increment (p : Person.t -> bool) (P : list Person.t)
  (x : Person.t) :
  find p P = Some x ->
  persons_grow P
    (update_first p (Person.set_photo_count (Person.photo_count x + 1)) P).
Proof.
  intros Hx. eexists _, []. rewrite app_nil_r. split; [reflexivity|].
  induction P as [|y P IH]; simpl in *; [discriminate|].
  destruct (p y).
  - injection Hx as ->. constructor; [|apply Forall2_counted_up_refl].
    repeat split. simpl. lia.
  - constructor; [apply counted_up_refl | now apply IH].
Qed.

Section Frame.

Context {image : Type}.
Variable env : Env image.
Variable cfg : Config.
Variable photo_id : string.

Let rows_of_photo (old new : list FaceMatch.t) : Prop :=
  exists rows,
    new = old ++ rows
    /\ Forall (fun m => FaceMatch.photo_id m = photo_id) rows.

Lemma process_face_any (img : image) (loc : Locals) (face : encoding * box)
  (st st' : Session) (o : outcome Locals) :
  process_face env cfg photo_id img loc face st = (o, st') ->
  persons_grow (persons (session st)) (persons (session st'))
  /\ rows_of_photo (face_matches (session st)) (face_matches (session st'))
  /\ photos (session st') = photos (session st)
  /\ processing_queue (session st') = processing_queue (session st).
Proof.
  intros Hrun. destruct o as [loc'|e].
  - destruct face as [face_encoding face_location].
    destruct (process_face_ok_inv env cfg photo_id img _ _ _ _ _ _ Hrun)
      as [(pid & c & person & Hfind & Hget) | (jpeg & Hfind & Hthumb & Hput)].
    + rewrite (process_face_matched env cfg photo_id img loc face_encoding
                 face_location st pid c person Hfind Hget) in Hrun.
      injection Hrun as <- <-. cbn.
      split; [now apply persons_grow_increment|].
      split; [|split; reflexivity].
      eexists. split; [reflexivity|]. now repeat constructor.
    + rewrite (process_face_new env cfg photo_id img loc face_encoding
                 face_location st jpeg Hfind Hthumb Hput) in Hrun.
      injection Hrun as <- <-. cbn.
      split.
      { eexists _, _. split; [reflexivity|]. apply Forall2_counted_up_refl. }
      split; [|split; reflexivity].
      eexists. split; [reflexivity|]. now repeat constructor.
  - destruct (process_face_raise env cfg photo_id img _ _ _ _ _ Hrun)
      as [Hs _].
    rewrite Hs. split; [apply persons_grow_refl|].
    split; [|split; reflexivity].
    exists []. rewrite app_nil_r. split; [reflexivity | constructor].
Qed.

Lemma process_faces_any (img : image) (fs : list (encoding * box))
  (loc : Locals) (st st' : Session) (o : outcome Locals) :
  process_faces env cfg photo_id img loc fs st = (o, st') ->
  persons_grow (persons (session st)) (persons (session st'))
  /\ rows_of_photo (face_matches (session st)) (face_matches (session st'))
  /\ photos (session st') = photos (session st)
  /\ processing_queue (session st') = processing_queue (session st).
Proof.
  revert loc st; induction fs as [|f fs IH]; intros loc st Hrun.
  - simpl in Hrun. injection Hrun as <- <-.
    split; [apply persons_grow_refl|]. split; [|split; reflexivity].
    exists []. rewrite app_nil_r. split; [reflexivity | constructor].
  - simpl in Hrun. unfold bind in Hrun.
    destruct (process_face env cfg photo_id img loc f st)
      as [[loc1|e] s1] eqn:Hstep.
    + destruct (process_face_any img _ _ _ _ _ Hstep)
        as (Hp1 & (r1 & Hr1 & Hf1) & Hph1 & Hq1).
      destruct (IH loc1 s1 Hrun) as (Hp2 & (r2 & Hr2 & Hf2) & Hph2 & Hq2).
      split; [now apply persons_grow_trans with (persons (session s1))|].
      split; [|split; congruence].
      exists (r1 ++ r2). split; [rewrite Hr2, Hr1, app_assoc; reflexivity|].
      apply Forall_app. now split.
    + injection Hrun as <- <-. apply (process_face_any img _ _ _ _ _ Hstep).
Qed.

(** The body writes to the photo of the call and to its queue entry, and
    to no other row of these two tables. *)
Lemma process_body_any (st1 s2 : Session) (o : outcome result) :
  process_body env cfg photo_id st1 = (o, s2) ->
  persons_grow (persons (session st1)) (persons (session s2))
  /\ rows_of_photo (face_matches (session st1)) (face_matches (session s2))
  /\ (exists f,
        (forall p, Photo.id (f p) = Photo.id p
                   /\ Photo.s3_key (f p) = Photo.s3_key p)
        /\ photos (session s2)
           = update_first (fun p => Photo.id p =? photo_id)%string f
               (photos (session st1)))
  /\ (exists g,
        (forall x, ProcessingQueue.id (g x) = ProcessingQueue.id x
                   /\ ProcessingQueue.photo_id (g x)
                      = ProcessingQueue.photo_id x)
        /\ processing_queue (session s2)
           = update_first
               (fun x => ProcessingQueue.photo_id x =? photo_id)%string g
               (processing_queue (session st1))).
Proof.
  assert (Hsame : forall s : Session,
             persons_grow (persons (session s)) (persons (session s))
             /\ rows_of_photo (face_matches (session s))
                  (face_matches (session s))
             /\ (exists f,
                   (forall p, Photo.id (f p) = Photo.id p
                              /\ Photo.s3_key (f p) = Photo.s3_key p)
                   /\ photos (session s)
                      = update_first (fun p => Photo.id p =? photo_id)%string
                          f (photos (session s)))
             /\ (exists g,
                   (forall x, ProcessingQueue.id (g x) = ProcessingQueue.id x
                              /\ ProcessingQueue.photo_id (g x)
                                 = ProcessingQueue.photo_id x)
                   /\ processing_queue (session s)
                      = update_first
                          (fun x => ProcessingQueue.photo_id x =? photo_id)%string
                          g (processing_queue (session s)))).
  { intros s. split; [apply persons_grow_refl|].
    split; [exists []; rewrite app_nil_r; split; [reflexivity|constructor]|].
    split; exists (fun x => x); (split; [now split|]);
      now rewrite update_first_same. }
  unfold process_body.
  unfold bind at 1. unfold Photo_query_get.
  destruct (find (fun p => Photo.id p =? photo_id)%string
              (photos (session st1))) as [photo|];
    [|intros H; injection H as <- <-; apply Hsame].
  unfold bind at 1. unfold download_image_from_s3.
  destruct (s3_get_object env (Photo.s3_key photo)) as [img| |msg];
    [| intros H; injection H as <- <-; apply Hsame
     | intros H; injection H as <- <-; apply Hsame].
  unfold ret at 1.
  unfold bind at 1. unfold lift at 1.
  destruct (face_locations env img) as [locations|msg];
    [|intros H; injection H as <- <-; apply Hsame].
  unfold bind at 1. unfold lift at 1.
  destruct (face_encodings env img locations) as [encodings|msg];
    [|intros H; injection H as <- <-; apply Hsame].
  destruct (List.length encodings =? 0)%nat.
  - intros H. cbn in H. injection H as <- <-. cbn.
    split; [apply persons_grow_refl|].
    split; [exists []; rewrite app_nil_r; split; [reflexivity|constructor]|].
    split.
    + exists (fun p => Photo.set_face_count 0 (Photo.set_processed true p)).
      split; [now split|]. now rewrite update_first_twice by reflexivity.
    + exists (ProcessingQueue.set_status completed). split; [now split|].
      reflexivity.
  - unfold bind at 1. unfold Person_query_all.
    unfold bind at 1.
    destruct (process_faces env cfg photo_id img _ (combine encodings locations)
                st1) as [[loc|e] s'] eqn:Hloop;
      destruct (process_faces_any img _ _ _ _ _ Hloop)
        as (Hp & Hr & Hph & Hqu).
    + intros H. cbn in H. injection H as <- <-. cbn.
      rewrite Hph, Hqu.
      split; [exact Hp|]. split; [exact Hr|].
      split.
      * exists (fun p => Photo.set_face_count
                           (Z.of_nat (faces_processed loc))
                           (Photo.set_processed true p)).
        split; [now split|]. now rewrite update_first_twice by reflexivity.
      * exists (ProcessingQueue.set_status completed). split; [now split|].
        reflexivity.
    + intros H. injection H as <- <-. rewrite Hph, Hqu.
      split; [exact Hp|]. split; [exact Hr|].
      split; exists (fun x => x); (split; [now split|]);
        now rewrite update_first_same.
Qed.

End Frame.

(** X7. Whatever the outcome of a call (entry missing, success, failure
    at any point), it removes no row and rewrites nothing of another photo:
    the persons present before are still there, in order, with the same
    identifier, name, reference encoding and thumbnail and a photo_count
    that did not go down; the FaceMatch rows present before are still
    there, followed by rows of this photo only; of the photos and of the
    queue entries, at most the first row of this photo was assigned to, and
    it kept its key. *)
Theorem run_touches_only_its_photo
  {image : Type} (env : Env image) (cfg : Config) (photo_id : string)
  (st : Session) :
  let st' := snd (process_single_photo env cfg photo_id st) in
  persons_grow (persons (session st)) (persons (session st'))
  /\ (exists rows,
        face_matches (session st') = face_matches (session st) ++ rows
        /\ Forall (fun m => FaceMatch.photo_id m = photo_id) rows)
  /\ (exists f,
        (forall p, Photo.id (f p) = Photo.id p
                   /\ Photo.s3_key (f p) = Photo.s3_key p)
        /\ photos (session st')
           = update_first (fun p => Photo.id p =? photo_id)%string f
               (photos (session st)))
  /\ (exists g,
        (forall x, ProcessingQueue.id (g x) = ProcessingQueue.id x
                   /\ ProcessingQueue.photo_id (g x)
                      = ProcessingQueue.photo_id x)
        /\ processing_queue (session st')
           = update_first
               (fun x => ProcessingQueue.photo_id x =? photo_id)%string g
               (processing_queue (session st))).
Proof.
  cbv zeta. unfold process_single_photo.
  destruct (ProcessingQueue_first photo_id (session st)) as [q|].
  - cbv zeta.
    destruct (process_body env cfg photo_id (snd (lease photo_id st)))
      as [[r|e] s2] eqn:Hbody;
      destruct (process_body_any env cfg photo_id _ _ _ Hbody)
        as (Hp & Hr & (f & Hf & Hph) & (g & Hg & Hqu));
      rewrite lease_state in Hp, Hr, Hph, Hqu; cbn in Hp, Hr, Hph, Hqu.
    + cbn [snd]. split; [exact Hp|]. split; [exact Hr|].
      split; [now exists f|].
      exists (fun x => g (ProcessingQueue.set_status processing x)).
      split; [intros x; destruct (Hg (ProcessingQueue.set_status processing x));
              now split|].
      rewrite Hqu. now rewrite update_first_twice by reflexivity.
    + cbn [snd]. rewrite on_failure_state. cbn.
      split; [exact Hp|]. split; [exact Hr|].
      split; [now exists f|].
      exists (fun x => ProcessingQueue.set_error_message (Some e)
                         (ProcessingQueue.set_status failed
                            (g (ProcessingQueue.set_status processing x)))).
      split.
      { intros x.
        destruct (Hg (ProcessingQueue.set_status processing x)) as [H1 H2].
        cbn in *. now split. }
      rewrite Hqu.
      rewrite (update_first_twice _ (ProcessingQueue.set_status processing) g)
        by reflexivity.
      rewrite update_first_twice; [reflexivity|].
      intros x. destruct (Hg (ProcessingQueue.set_status processing x))
        as [_ H]. now rewrite H.
  - cbn [snd]. split; [apply persons_grow_refl|].
    split; [exists []; rewrite app_nil_r; split; [reflexivity|constructor]|].
    split; exists (fun x => x); (split; [now split|]);
      now rewrite update_first_same.
Qed.

(** ** Counting the queue *)






(** ** The routes *)

(** X10. Whatever the request, PATCH /api/persons/<id> leaves the
    identifiers, the reference encodings and the counters of all persons
    as they are, and the other tables too: renaming a person never changes
    what a face is matched with. *)
Theorem update_person_keeps_matching
  (authenticated : bool) (person_id : string) (new_name : option string)
  (st : Session) :
  let st' := snd (App.update_person authenticated person_id new_name st) in
  same_identities (persons (session st)) (persons (session st'))
  /\ map Person.photo_count (persons (session st'))
     = map Person.photo_count (persons (session st))
  /\ photos (session st') = photos (session st)
  /\ face_matches (session st') = face_matches (session st)
  /\ processing_queue (session st') = processing_queue (session st)
  /\ forall (image : Type) (env : Env image) (cfg : Config) (face : encoding),
      find_match env cfg
        (map Person.face_encoding (persons (session st')))
        (map Person.id (persons (session st'))) face
      = find_match env cfg
          (map Person.face_encoding (persons (session st)))
          (map Person.id (persons (session st))) face.
Proof.
  cbv zeta.
  assert (H : same_identities (persons (session st))
                (persons (session
                   (snd (App.update_person authenticated person_id new_name
                           st))))
              /\ map Person.photo_count
                   (persons (session
                      (snd (App.update_person authenticated person_id
                              new_name st))))
                 = map Person.photo_count (persons (session st))
              /\ photos (session
                   (snd (App.update_person authenticated person_id new_name
                           st))) = photos (session st)
              /\ face_matches (session
                   (snd (App.update_person authenticated person_id new_name
                           st))) = face_matches (session st)
              /\ processing_queue (session
                   (snd (App.update_person authenticated person_id new_name
                           st))) = processing_queue (session st)).
  { unfold App.update_person.
    destruct authenticated; cbn [negb];
      [|repeat split; reflexivity].
    destruct (find _ (persons (session st))) as [person|];
      [|repeat split; reflexivity].
    destruct new_name as [n|]; [|repeat split; reflexivity].
    cbn. repeat split; apply map_update_first; reflexivity. }
  destruct H as ([H1 H2] & H3 & H4 & H5 & H6).
  repeat split; try assumption.
  intros image env cfg face. now rewrite H1, H2.
Qed.

(** X11. An authenticated PATCH with a name, on a person that exists,
    answers the row with the new name, writes that name on the row and
    commits it. *)
Theorem update_person_renames
  (person_id n : string) (st : Session) (person : Person.t) :
  find (fun p => Person.id p =? person_id)%string (persons (session st))
  = Some person ->
  let r := App.update_person true person_id (Some n) st in
  fst r = Ok200 (App.set_name n person)
  /\ find (fun p => Person.id p =? person_id)%string
       (persons (committed (snd r))) = Some (App.set_name n person)
  /\ Person.name (App.set_name n person) = n
  /\ session (snd r) = committed (snd r).
Proof.
  intros Hget. cbv zeta. unfold App.update_person. cbn [negb].
  rewrite Hget. cbn. repeat split.
  apply find_update_first; [exact Hget|].
  apply find_some in Hget. apply Hget.
Qed.

Lemma update_person_renames_witness :
  let st := Sample.start (mkDB [] [Sample.person "p0" 0 3;
                                   Sample.person "p1" 1 1] [] []) in
  let r := App.update_person true "p1" (Some "Aiko"%string) st in
  fst r = Ok200 (App.set_name "Aiko" (Sample.person "p1" 1 1))
  /\ find (fun p => Person.id p =? "p1")%string
       (persons (committed (snd r)))
     = Some (App.set_name "Aiko" (Sample.person "p1" 1 1))
  /\ Person.name (App.set_name "Aiko" (Sample.person "p1" 1 1))
     = "Aiko"%string
  /\ session (snd r) = committed (snd r).
Proof.
  intros st.
  apply (update_person_renames "p1" "Aiko" st (Sample.person "p1" 1 1)).
  reflexivity.
Defined.

Section Upload.

Context {image : Type}.
Variable env : Env image.
Variable sto : App.Storage.

(** What the files handled so far have added: the photos [sent], the
    errors [errs] and the queue rows [news]. *)
Let added (acc acc' : list Photo.t * list (string * string))
  (st st' : Session) (sent : list Photo.t) (errs : list (string * string))
  (news : list ProcessingQueue.t) : Prop :=
  fst acc' = fst acc ++ sent
  /\ snd acc' = snd acc ++ errs
  /\ photos (session st') = photos (session st) ++ sent
  /\ processing_queue (session st') = processing_queue (session st) ++ news
  /\ map ProcessingQueue.photo_id news = map Photo.id sent
  /\ Forall (fun x => ProcessingQueue.status x = pending
                      /\ ProcessingQueue.error_message x = None) news
  /\ Forall (fun p => Photo.processed p = false
                      /\ Photo.face_count p = 0%Z) sent
  /\ persons (session st') = persons (session st)
  /\ face_matches (session st') = face_matches (session st)
  /\ committed st' = committed st.

Lemma upload_file_adds (acc : list Photo.t * list (string * string))
  (file : App.FileStorage) (st : Session) :
  exists acc' st' sent errs news,
    App.upload_file env sto acc file st = (Ok acc', st')
    /\ added acc acc' st st' sent errs news
    /\ (List.length sent + List.length errs
        + (if (App.filename file =? "")%string then 1 else 0) = 1)%nat.
Proof.
  unfold App.upload_file.
  destruct (App.filename file =? "")%string.
  - exists acc, st, [], [], []. split; [reflexivity|].
    split; [|reflexivity].
    unfold added. rewrite !app_nil_r. repeat split; constructor.
  - unfold bind at 1. unfold fresh_uuid. cbv beta iota.
    set (photo_id := uuid4 env (uuid_calls st)).
    destruct (App.s3_configured sto); cbn [fst snd];
      match goal with
      | |- context [match ?o with Ok _ => _ | Raise _ => _ end] =>
          destruct o as [u|e]
      end.
    1, 3: eexists _, _, [_], [], [_]; (split; [reflexivity|]);
      (split; [unfold added; cbn; rewrite ?app_nil_r; repeat split;
               repeat constructor | reflexivity]).
    all: eexists _, _, [], [_], []; (split; [reflexivity|]);
      (split; [unfold added; cbn; rewrite ?app_nil_r; repeat split;
               repeat constructor | reflexivity]).
Qed.

Lemma upload_files_add (files : list App.FileStorage)
  (acc : list Photo.t * list (string * string)) (st : Session) :
  exists acc' st' sent errs news,
    App.upload_files env sto acc files st = (Ok acc', st')
    /\ added acc acc' st st' sent errs news
    /\ (List.length sent + List.length errs
        + List.length
            (filter (fun f => App.filename f =? "")%string files)
        = List.length files)%nat.
Proof.
  revert acc st; induction files as [|file files IH]; intros acc st.
  - exists acc, st, [], [], []. split; [reflexivity|].
    split; [|reflexivity].
    unfold added. rewrite !app_nil_r. repeat split; constructor.
  - destruct (upload_file_adds acc file st)
      as (acc1 & s1 & sent1 & errs1 & news1 & Hrun1 & Hadd1 & Hn1).
    destruct (IH acc1 s1)
      as (acc2 & s2 & sent2 & errs2 & news2 & Hrun2 & Hadd2 & Hn2).
    exists acc2, s2, (sent1 ++ sent2), (errs1 ++ errs2), (news1 ++ news2).
    split; [simpl; unfold bind; now rewrite Hrun1|].
    split.
    + destruct Hadd1 as (A1 & A2 & A3 & A4 & A5 & A6 & A7 & A8 & A9 & A10).
      destruct Hadd2 as (B1 & B2 & B3 & B4 & B5 & B6 & B7 & B8 & B9 & B10).
      unfold added. rewrite !app_assoc, !map_app.
      repeat split; try congruence; apply Forall_app; now split.
    + simpl. rewrite !length_app.
      destruct (App.filename file =? "")%string; simpl; lia.
Qed.

(** The state an accepted upload leaves. *)
Lemma upload_photos_accepts (files : list App.FileStorage) (st : Session) :
  (List.length files <= App.max_upload sto)%nat ->
  exists acc st1 sent errs news,
    App.upload_files env sto ([], []) files st = (Ok acc, st1)
    /\ added ([], []) acc st st1 sent errs news
    /\ (List.length sent + List.length errs
        + List.length
            (filter (fun f => App.filename f =? "")%string files)
        = List.length files)%nat
    /\ App.upload_photos env sto true (Some files) st
       = (Ok200 (App.mkUploaded (List.length (fst acc)) (snd acc) (fst acc)),
          mkSession (session st1) (session st1) (uuid_calls st1)).
Proof.
  intros Hmax.
  destruct (upload_files_add files ([], []) st)
    as (acc & st1 & sent & errs & news & Hrun & Hadd & Hn).
  exists acc, st1, sent, errs, news.
  split; [exact Hrun|]. split; [exact Hadd|]. split; [exact Hn|].
  unfold App.upload_photos. cbn [negb].
  replace (App.max_upload sto <? List.length files)%nat with false
    by (symmetry; apply Nat.ltb_ge; exact Hmax).
  unfold bind at 1. rewrite Hrun. reflexivity.
Qed.

End Upload.

Section UploadPlan.

Context {image : Type}.
Variable env : Env image.
Variable sto : App.Storage.

(** One named file: the identifier drawn, the answer of the storage, and
    what the file adds to the two lists. *)
Lemma upload_file_named (acc : list Photo.t * list (string * string))
  (file : App.FileStorage) (st : Session) :
  (App.filename file =? "")%string = false ->
  let photo_id := uuid4 env (uuid_calls st) in
  exists st',
    uuid_calls st' = S (uuid_calls st)
    /\ App.upload_file env sto acc file st
       = (Ok match storage_answer sto photo_id file with
             | Ok _ =>
                 (fst acc
                  ++ [Photo.mk photo_id (storage_key sto photo_id file)
                        false 0],
                  snd acc)
             | Raise e => (fst acc, snd acc ++ [(App.filename file, e)])
             end, st').
Proof.
  intros Hname photo_id.
  unfold App.upload_file. rewrite Hname.
  unfold bind at 1. unfold fresh_uuid. cbv beta iota. fold photo_id.
  unfold storage_answer, storage_key.
  destruct (App.s3_configured sto); cbn [fst snd];
    match goal with
    | |- context [match ?o with Ok _ => _ | Raise _ => _ end] =>
        destruct o as [u|e]
    end;
    eexists; (split; [|reflexivity]); reflexivity.
Qed.

(** The loop over the files: the two lists it ends with are those of the
    named files, each under the identifier drawn for it, in the order of
    the files. *)
Lemma upload_files_plan (files : list App.FileStorage)
  (acc : list Photo.t * list (string * string)) (st : Session) :
  exists st',
    App.upload_files env sto acc files st
    = (Ok (fst acc ++ photos_of sto (numbered env (uuid_calls st) files),
           snd acc ++ errors_of sto (numbered env (uuid_calls st) files)),
       st').
Proof.
  revert acc st; induction files as [|file files IH]; intros acc st.
  - exists st. simpl. rewrite !app_nil_r. now destruct acc.
  - simpl. unfold bind.
    destruct (App.filename file =? "")%string eqn:Hname.
    + unfold App.upload_file. rewrite Hname. unfold ret. apply IH.
    + destruct (upload_file_named acc file st Hname) as (s1 & Hn & Hrun).
      cbv zeta in Hrun. rewrite Hrun.
      unfold photos_of, errors_of. cbn [flat_map fst snd].
      destruct (storage_answer sto (uuid4 env (uuid_calls st)) file)
        as [u|e];
        match goal with
        | |- context [App.upload_files env sto ?a files s1] =>
            destruct (IH a s1) as (s2 & Hrest)
        end;
        exists s2; rewrite Hrest, Hn; cbn [fst snd app];
        rewrite <- ?app_assoc; reflexivity.
Qed.

End UploadPlan.

(** X12. An authenticated upload of no more files than the limit answers
    200.  The photos it answers are, in the order of the files, one per
    named file whose storage did not raise, under the identifier drawn for
    that file and the key made of it; the errors are, in the same order,
    the name and the text of the exception of each named file whose storage
    raised; a file with an empty name gives neither, so that photos, errors
    and unnamed files add up to the files.  Committed with the answer: one photo row (not processed, face_count 0) and one pending
    queue row per photo answered, appended in that order; persons and face
    matches are untouched. *)
Theorem upload_adds_photo_and_pending_entry
  {image : Type} (env : Env image) (sto : App.Storage)
  (files : list App.FileStorage) (st : Session) :
  (List.length files <= App.max_upload sto)%nat ->
  exists body st' news,
    App.upload_photos env sto true (Some files) st = (Ok200 body, st')
    /\ App.photos_sent body
       = photos_of sto (numbered env (uuid_calls st) files)
    /\ App.errors body
       = errors_of sto (numbered env (uuid_calls st) files)
    /\ App.uploaded body = List.length (App.photos_sent body)
    /\ photos (committed st') = photos (session st) ++ App.photos_sent body
    /\ processing_queue (committed st') = processing_queue (session st) ++ news
    /\ map ProcessingQueue.photo_id news = map Photo.id (App.photos_sent body)
    /\ Forall (fun x => ProcessingQueue.status x = pending
                        /\ ProcessingQueue.error_message x = None) news
    /\ Forall (fun p => Photo.processed p = false
                        /\ Photo.face_count p = 0%Z) (App.photos_sent body)
    /\ (App.uploaded body + List.length (App.errors body)
        + List.length (filter (fun f => App.filename f =? "")%string files)
        = List.length files)%nat
    /\ persons (committed st') = persons (session st)
    /\ face_matches (committed st') = face_matches (session st)
    /\ session st' = committed st'.
Proof.
  intros Hmax.
  destruct (upload_photos_accepts env sto files st Hmax)
    as (acc & st1 & sent & errs & news & Hfiles
        & (A1 & A2 & A3 & A4 & A5 & A6 & A7 & A8 & A9 & _) & Hn & Hrun).
  destruct (upload_files_plan env sto files ([], []) st) as (st2 & Hplan).
  rewrite Hplan in Hfiles. injection Hfiles as Hacc Hst. subst acc.
  cbn [fst snd app] in *.
  eexists _, _, news. split; [exact Hrun|]. cbn.
  rewrite <- A1, <- A2 in *.
  repeat split; assumption.
Qed.

Lemma upload_adds_photo_and_pending_entry_witness :
  let env := Sample.calm [] in
  let files := [SampleApp.file "a.jpg"; SampleApp.file "";
                SampleApp.file "b.gif"; SampleApp.file "c.png"] in
  let st := Sample.start (mkDB [Sample.photo1] [] []
                            [Sample.entry1 completed]) in
  exists body st' news,
    App.upload_photos env SampleApp.picky_s3 true (Some files) st
    = (Ok200 body, st')
    /\ App.photos_sent body
       = photos_of SampleApp.picky_s3 (numbered env (uuid_calls st) files)
    /\ App.errors body
       = errors_of SampleApp.picky_s3 (numbered env (uuid_calls st) files)
    /\ App.uploaded body = List.length (App.photos_sent body)
    /\ photos (committed st') = photos (session st) ++ App.photos_sent body
    /\ processing_queue (committed st') = processing_queue (session st) ++ news
    /\ map ProcessingQueue.photo_id news = map Photo.id (App.photos_sent body)
    /\ Forall (fun x => ProcessingQueue.status x = pending
                        /\ ProcessingQueue.error_message x = None) news
    /\ Forall (fun p => Photo.processed p = false
                        /\ Photo.face_count p = 0%Z) (App.photos_sent body)
    /\ (App.uploaded body + List.length (App.errors body)
        + List.length (filter (fun f => App.filename f =? "")%string files)
        = List.length files)%nat
    /\ persons (committed st') = persons (session st)
    /\ face_matches (committed st') = face_matches (session st)
    /\ session st' = committed st'.
Proof.
  intros env files st.
  apply (upload_adds_photo_and_pending_entry env SampleApp.picky_s3 files st).
  apply Nat.leb_le. reflexivity.
Defined.

(** What the expected photos and errors are on four files, one without a
    name and one that S3 refuses. *)
Example expected_upload_of_four_files :
  let files := [SampleApp.file "a.jpg"; SampleApp.file "";
                SampleApp.file "b.gif"; SampleApp.file "c.png"] in
  let named := numbered (Sample.calm []) 0 files in
  photos_of SampleApp.picky_s3 named
  = [Photo.mk "uuid-0" "photos/uuid-0/a.jpg" false 0;
     Photo.mk "uuid-2" "photos/uuid-2/c.png" false 0]
  /\ errors_of SampleApp.picky_s3 named
     = [("b.gif"%string, "An error occurred (AccessDenied)"%string)].
Proof. split; reflexivity. Qed.

Example upload_reports_the_refused_file :
  let files := [SampleApp.file "a.jpg"; SampleApp.file "";
                SampleApp.file "b.gif"; SampleApp.file "c.png"] in
  let st := Sample.start (mkDB [] [] [] []) in
  let r := App.upload_photos (Sample.calm []) SampleApp.picky_s3 true
             (Some files) st in
  (match fst r with
   | Ok200 body =>
       App.uploaded body = 2%nat
       /\ App.errors body
          = [("b.gif"%string, "An error occurred (AccessDenied)"%string)]
       /\ map Photo.s3_key (App.photos_sent body)
          = ["photos/uuid-0/a.jpg"%string; "photos/uuid-2/c.png"%string]
   | _ => False
   end)
  /\ map ProcessingQueue.photo_id (processing_queue (committed (snd r)))
     = ["uuid-0"%string; "uuid-2"%string].
Proof. vm_compute. repeat split. Qed.

Lemma filter_pending_app (l news : list ProcessingQueue.t) :
  Forall (fun x => ProcessingQueue.status x = pending
                   /\ ProcessingQueue.error_message x = None) news ->
  filter (fun q => Status_eqb (ProcessingQueue.status q) pending) (l ++ news)
  = filter (fun q => Status_eqb (ProcessingQueue.status q) pending) l ++ news.
Proof.
  intros H. rewrite filter_app. f_equal.
  induction H as [|x news [Hx _] _ IH]; simpl; [reflexivity|].
  now rewrite Hx, IH.
Qed.

Lemma length_photos_of (sto : App.Storage)
  (named : list (App.FileStorage * string)) :
  (List.length (photos_of sto named) <= List.length named)%nat.
Proof.
  induction named as [|p named IH]; simpl; [lia|].
  rewrite length_app.
  destruct (storage_answer sto (snd p) (fst p)); simpl; lia.
Qed.

Lemma length_numbered {image : Type} (env : Env image) (n : nat)
  (files : list App.FileStorage) :
  (List.length (numbered env n files) <= List.length files)%nat.
Proof.
  revert n; induction files as [|f files IH]; intros n; simpl; [lia|].
  destruct (App.filename f =? "")%string; simpl;
    [specialize (IH n) | specialize (IH (S n))]; lia.
Qed.

(** X14. After an accepted upload that leaves no more than 100 pending
    entries, the next call of [start_processing] dispatches every photo
    that was pending before and every photo just uploaded (those of the
    named files that were stored), each entry once, in the order in which
    the database returns the queue. *)
Theorem uploaded_photos_are_dispatched_with_older_ones
  {image : Type} (env : Env image) (sto : App.Storage)
  (scan : list ProcessingQueue.t -> list ProcessingQueue.t)
  (files : list App.FileStorage) (st : Session) :
  (forall l, Permutation (scan l) l) ->
  (List.length files <= App.max_upload sto)%nat ->
  (List.length
     (filter (fun q => Status_eqb (ProcessingQueue.status q) pending)
        (processing_queue (session st)))
   + List.length files <= 100)%nat ->
  exists body st',
    App.upload_photos env sto true (Some files) st = (Ok200 body, st')
    /\ App.photos_sent body
       = photos_of sto (numbered env (uuid_calls st) files)
    /\ Permutation (start_processing scan (committed st'))
         (map ProcessingQueue.photo_id
            (filter (fun q => Status_eqb (ProcessingQueue.status q) pending)
               (processing_queue (session st)))
          ++ map Photo.id (App.photos_sent body)).
Proof.
  intros Hscan Hmax Hroom.
  destruct (upload_photos_accepts env sto files st Hmax)
    as (acc & st1 & sent & errs & news & Hfiles
        & (A1 & _ & _ & A4 & A5 & A6 & _) & _ & Hrun).
  destruct (upload_files_plan env sto files ([], []) st) as (st2 & Hplan).
  rewrite Hplan in Hfiles. injection Hfiles as Hacc Hst. subst acc.
  cbn [fst snd app] in *.
  eexists _, _. split; [exact Hrun|]. cbn [committed App.photos_sent].
  split; [reflexivity|].
  unfold start_processing, pending_queue. rewrite A4.
  set (is_pending := fun q => Status_eqb (ProcessingQueue.status q) pending).
  assert (Hperm : Permutation
                    (filter is_pending
                       (scan (processing_queue (session st) ++ news)))
                    (filter is_pending (processing_queue (session st))
                     ++ news)).
  { rewrite <- (filter_pending_app _ _ A6).
    apply Permutation_filter, Hscan. }
  assert (Hlen : (List.length news <= List.length files)%nat).
  { rewrite <- (length_map ProcessingQueue.photo_id), A5, length_map, <- A1.
    apply Nat.le_trans with (1 := length_photos_of sto _).
    apply length_numbered. }
  rewrite firstn_all2.
  - rewrite A1, <- A5, <- map_app. now apply Permutation_map.
  - rewrite (Permutation_length Hperm), length_app.
    fold is_pending in Hroom. lia.
Qed.

Lemma uploaded_photos_are_dispatched_with_older_ones_witness :
  let env := Sample.calm [] in
  let files := [SampleApp.file "a.jpg"; SampleApp.file "c.png"] in
  let scan := @rev ProcessingQueue.t in
  let st := Sample.start
              (mkDB [Sample.photo1] [] []
                 [Sample.entry1 pending;
                  ProcessingQueue.mk 2 "photo-0" failed None]) in
  exists body st',
    App.upload_photos env SampleApp.picky_s3 true (Some files) st
    = (Ok200 body, st')
    /\ App.photos_sent body
       = photos_of SampleApp.picky_s3 (numbered env (uuid_calls st) files)
    /\ Permutation (start_processing scan (committed st'))
         (map ProcessingQueue.photo_id
            (filter (fun q => Status_eqb (ProcessingQueue.status q) pending)
               (processing_queue (session st)))
          ++ map Photo.id (App.photos_sent body)).
Proof.
  intros env files scan st.
  apply (uploaded_photos_are_dispatched_with_older_ones env
           SampleApp.picky_s3 scan files st).
  - intros l. apply Permutation_sym, Permutation_rev.
  - apply Nat.leb_le. reflexivity.
  - apply Nat.leb_le. reflexivity.
Defined.

(** X15. Every photo an accepted upload answers has, once the upload is
    committed, a photo row and a queue entry that the processor finds by
    its identifier: a run on it does not stop at "Queue item not found" or
    "Photo not found". *)
Theorem uploaded_photo_can_be_processed
  {image : Type} (env : Env image) (sto : App.Storage)
  (files : list App.FileStorage) (st : Session) :
  (List.length files <= App.max_upload sto)%nat ->
  exists body st',
    App.upload_photos env sto true (Some files) st = (Ok200 body, st')
    /\ forall p, In p (App.photos_sent body) ->
         (exists q, ProcessingQueue_first (Photo.id p) (committed st') = Some q)
         /\ (exists row,
               find (fun x => Photo.id x =? Photo.id p)%string
                 (photos (committed st')) = Some row).
Proof.
  intros Hmax.
  destruct (upload_photos_accepts env sto files st Hmax)
    as (acc & st1 & sent & errs & news & _
        & (A1 & _ & A3 & A4 & A5 & _) & _ & Hrun).
  simpl in A1.
  eexists _, _. split; [exact Hrun|].
  cbn [committed App.photos_sent]. rewrite A1. intros p Hp. split.
  - unfold ProcessingQueue_first. rewrite A4.
    destruct (find _ (processing_queue (session st) ++ news)) as [q|] eqn:E;
      [now exists q|].
    exfalso.
    assert (Hin : In (Photo.id p) (map ProcessingQueue.photo_id news))
      by (rewrite A5; now apply in_map).
    apply in_map_iff in Hin. destruct Hin as (x & Hx & Hin).
    pose proof (find_none _ _ E x (in_or_app _ _ _ (or_intror Hin))) as H.
    cbv beta in H. rewrite Hx, String.eqb_refl in H. discriminate.
  - rewrite A3.
    destruct (find _ (photos (session st) ++ sent)) as [row|] eqn:E;
      [now exists row|].
    exfalso.
    pose proof (find_none _ _ E p (in_or_app _ _ _ (or_intror Hp))) as H.
    cbv beta in H. rewrite String.eqb_refl in H. discriminate.
Qed.

Lemma uploaded_photo_can_be_processed_witness :
  let env := Sample.calm [] in
  let files := [SampleApp.file "a.jpg"; SampleApp.file "c.png"] in
  let st := Sample.start (mkDB [Sample.photo1] [] []
                            [Sample.entry1 pending]) in
  exists body st',
    App.upload_photos env SampleApp.picky_s3 true (Some files) st
    = (Ok200 body, st')
    /\ forall p, In p (App.photos_sent body) ->
         (exists q, ProcessingQueue_first (Photo.id p) (committed st') = Some q)
         /\ (exists row,
               find (fun x => Photo.id x =? Photo.id p)%string
                 (photos (committed st')) = Some row).
Proof.
  intros env files st.
  apply (uploaded_photo_can_be_processed env SampleApp.picky_s3 files st).
  apply Nat.leb_le. reflexivity.
Defined.



(** X17. The same face detected again is matched with the person it
    created: once a face at more than the tolerance from every known
    person has been appended to the working lists, a face with the same
    encoding is matched with that new person (with confidence one minus
    the distance of the encoding to itself), provided that distance is
    within the tolerance. *)
Theorem repeated_face_matches_its_own_person
  {image : Type} (env : Env image) (cfg : Config)
  (known : list (string * encoding)) (person_id : string) (e : encoding) :
  Forall (fun k => (FACE_RECOGNITION_TOLERANCE cfg < norm env (snd k) e)%Q)
    known ->
  (norm env e e <= FACE_RECOGNITION_TOLERANCE cfg)%Q ->
  find_match env cfg (map snd known ++ [e]) (map fst known ++ [person_id]) e
  = Ok (Some (person_id, (1 - norm env e e)%Q)).
Proof.
  intros Hfar Hself.
  change (map snd known ++ [e]) with (map snd known ++ map snd [(person_id, e)]).
  change (map fst known ++ [person_id])
    with (map fst known ++ map fst [(person_id, e)]).
  rewrite <- !map_app, find_match_selected.
  unfold spec_candidates. rewrite filter_app.
  assert (Hnone : filter
                    (fun p => Qle_bool (distance_to env e p)
                                (FACE_RECOGNITION_TOLERANCE cfg)) known = []).
  { induction Hfar as [|k ks Hk _ IH]; simpl; [reflexivity|].
    destruct (Qle_bool (distance_to env e k) (FACE_RECOGNITION_TOLERANCE cfg))
      eqn:Hle; [|exact IH].
    apply Qle_bool_iff in Hle. exfalso. apply (Qlt_not_le _ _ Hk). exact Hle. }
  rewrite Hnone. simpl.
  assert (Hle : Qle_bool (distance_to env e (person_id, e))
                  (FACE_RECOGNITION_TOLERANCE cfg) = true)
    by (apply Qle_bool_iff; exact Hself).
  rewrite Hle. reflexivity.
Qed.

Lemma repeated_face_matches_its_own_person_witness :
  let env := Sample.calm [] in
  let cfg := Sample.cfg (6#10) in
  find_match env cfg (map snd [("p0"%string, [0%Q])] ++ [[9#10]])
    (map fst [("p0"%string, [0%Q])] ++ ["uuid-1"%string]) [9#10]
  = Ok (Some ("uuid-1"%string, (1 - norm env [9#10] [9#10])%Q)).
Proof.
  intros env cfg.
  apply (repeated_face_matches_its_own_person env cfg
           [("p0"%string, [0%Q])] "uuid-1" [9#10]).
  - repeat constructor.
  - vm_compute. discriminate.
Defined.

(** ** When the database refuses a flush *)

Section RefusingFacts.

Context {image : Type}.
Variable env : Env image.
Variable cfg : Config.
Variable flush : DB -> option string.
Variable held : Session -> string -> bool.
Variable photo_id : string.



End RefusingFacts.

Section RefusingRun.

Context {image : Type}.
Variable env : Env image.
Variable cfg : Config.
Variable flush : DB -> option string.
Variable held : Session -> string -> bool.
Variable photo_id : string.






End RefusingRun.




(** With a database that refuses nothing, the run is the run of the
    definitions in which the database is not asked. *)
Section NeverRefused.

Context {image : Type}.
Variable env : Env image.
Variable cfg : Config.
Variable flush : DB -> option string.
Variable held : Session -> string -> bool.
Variable photo_id : string.
Hypothesis accepts : forall db, flush db = None.

Lemma commit_db_accepted (st : Session) :
  commit_db flush st = sure commit st.
Proof.
  unfold commit_db, bind_db, autoflush. now rewrite accepts.
Qed.

Lemma process_face_db_accepted (img : image) (loc : Locals)
  (face : encoding * box) (st : Session) :
  process_face_db env cfg flush held photo_id img loc face st
  = sure (process_face env cfg photo_id img loc face) st.
Proof.
  destruct face as [face_encoding face_location].
  cbv [process_face_db process_face bind_db bind sure lift ret ret_db raise
       Person_query_get_db Person_query_get create_thumbnail fresh_uuid
       upload_to_s3 autoflush Person_query_count add_person add_face_match
       update_person modify_session].
  destruct (find_match env cfg (known_encodings loc) (known_person_ids loc)
              face_encoding) as [[[pid c]|]|msg]; [| |reflexivity].
  - rewrite accepts.
    destruct (held st pid);
      (destruct (find (fun p => Person.id p =? pid)%string
                   (persons (session st))); reflexivity).
  - destruct (pil_thumbnail env (crop env img face_location) 200)
      as [jpeg|msg]; [|reflexivity].
    cbn [uuid_calls session committed].
    destruct (s3_put_object env _ jpeg); [ | |reflexivity];
      cbn [uuid_calls session committed]; rewrite accepts; reflexivity.
Qed.

Lemma process_faces_db_accepted (img : image) (fs : list (encoding * box))
  (loc : Locals) (st : Session) :
  process_faces_db env cfg flush held photo_id img loc fs st
  = sure (process_faces env cfg photo_id img loc fs) st.
Proof.
  revert loc st; induction fs as [|f fs IH]; intros loc st.
  - reflexivity.
  - simpl. unfold bind_db. rewrite process_face_db_accepted.
    unfold sure, bind.
    destruct (process_face env cfg photo_id img loc f st) as [[loc1|e] s1];
      [|reflexivity].
    rewrite IH. reflexivity.
Qed.

Lemma process_body_db_accepted (st : Session) :
  process_body_db env cfg flush held photo_id st
  = sure (process_body env cfg photo_id) st.
Proof.
  cbv [process_body_db process_body bind_db bind sure lift ret ret_db raise
       Photo_query_get download_image_from_s3 Person_query_all update_photo
       update_queue_item modify_session commit_db autoflush commit].
  destruct (find _ (photos (session st))) as [photo|]; [|reflexivity].
  destruct (s3_get_object env (Photo.s3_key photo)) as [img| |msg];
    [|reflexivity|reflexivity].
  destruct (face_locations env img) as [locations|msg]; [|reflexivity].
  destruct (face_encodings env img locations) as [encodings|msg];
    [|reflexivity].
  destruct (List.length encodings =? 0)%nat.
  - cbn [session]. rewrite accepts. reflexivity.
  - rewrite process_faces_db_accepted. unfold sure.
    destruct (process_faces env cfg photo_id img _ _ st) as [[loc|e] s1];
      [|reflexivity].
    cbn [session]. rewrite accepts. reflexivity.
Qed.

Lemma process_single_photo_db_accepted (st : Session) :
  process_single_photo_db env cfg flush held photo_id st
  = (Returned (fst (process_single_photo env cfg photo_id st)),
     snd (process_single_photo env cfg photo_id st)).
Proof.
  unfold process_single_photo_db, process_single_photo.
  destruct (ProcessingQueue_first photo_id (session st)); [|reflexivity].
  assert (Hlease : lease_db flush photo_id st
                   = (Done tt, snd (lease photo_id st))).
  { unfold lease_db, bind_db, sure at 1, update_queue_item, modify_session.
    rewrite commit_db_accepted. reflexivity. }
  rewrite Hlease. cbv zeta. rewrite process_body_db_accepted.
  unfold sure at 1.
  destruct (process_body env cfg photo_id (snd (lease photo_id st)))
    as [[r|e] s2]; [reflexivity|].
  assert (Hh : on_failure_db flush photo_id e s2
               = (Done tt, snd (on_failure photo_id e s2))).
  { unfold on_failure_db, bind_db, sure at 1 2, update_queue_item,
      modify_session.
    rewrite commit_db_accepted. reflexivity. }
  rewrite Hh. reflexivity.
Qed.

End NeverRefused.
